(** * BrokerClient: a shallow embedding of [BrokerClient.hpp] / [BrokerClient.cpp]

    The client keeps a cash balance, a portfolio ([std::map] from ticker to
    position), a FIFO queue of outstanding buy orders per ticker and the
    vector of processed transactions.

    Data is modelled as the C++ has it:
    - [double] is IEEE 754 binary64, here Rocq's primitive [float]; every
      operation of the source is one correctly rounded operation;
    - [uint32_t] is a [Z] in [0, 2^32) with the wrap-around written out;
    - [std::map<std::string, V>] is an association list kept in ascending
      key order ([std::less<std::string>], byte-wise lexicographic), so that
      iteration order is the list order;
    - [std::queue<Order>] is a list, front first;
    - undefined behaviour ([front()] of an empty queue, a [double] to
      [uint32_t] conversion whose truncated value does not fit) is [None]. *)

From Stdlib Require Import ZArith List String Ascii Bool Lia Sorted.
From Stdlib Require Import Floats Uint63.
Import ListNotations.

Set Warnings "-inexact-float".

Open Scope Z_scope.

(* ------------------------------------------------------------------ *)
(** ** [std::map<std::string, V>] *)

Module StdMap.

(** [std::less<std::string>]: byte-wise lexicographic, a proper prefix
    first. *)
Definition key_lt (a b : string) : Prop := String.compare a b = Lt.

(** The three outcomes of comparing two keys, with what each one means. *)
Variant compare_cases (a b : string) : comparison -> Prop :=
| cmp_lt : key_lt a b -> compare_cases a b Lt
| cmp_eq : a = b -> compare_cases a b Eq
| cmp_gt : key_lt b a -> compare_cases a b Gt.

Section Ops.
Context {V : Type}.

Definition t := list (string * V).

Definition keys (m : t) : list string := map fst m.

Definition values (m : t) : list V := map snd m.

(** [m.find(k)], as [Some] of the mapped value or [None] for [m.end()]. *)
Fixpoint find (k : string) (m : t) : option V :=
  match m with
  | [] => None
  | (k', v) :: m' =>
      match String.compare k k' with
      | Lt => None
      | Eq => Some v
      | Gt => find k m'
      end
  end.

(** [m.insert(std::make_pair(k, v))]: a present key keeps its value. *)
Fixpoint insert (k : string) (v : V) (m : t) : t :=
  match m with
  | [] => [(k, v)]
  | (k', v') :: m' =>
      match String.compare k k' with
      | Lt => (k, v) :: m
      | Eq => m
      | Gt => (k', v') :: insert k v m'
      end
  end.

(** A write through the reference [m[k]]: [m[k] = v]. An absent key is
    inserted first (by [operator[]]). *)
Fixpoint assign (k : string) (v : V) (m : t) : t :=
  match m with
  | [] => [(k, v)]
  | (k', v') :: m' =>
      match String.compare k k' with
      | Lt => (k, v) :: m
      | Eq => (k, v) :: m'
      | Gt => (k', v') :: assign k v m'
      end
  end.

(** A read through [m[k]]; [d] is the value-initialised [V] that
    [operator[]] inserts for an absent key. *)
Definition subscript (d : V) (k : string) (m : t) : V :=
  match find k m with
  | Some v => v
  | None => d
  end.

(** [m.erase(m.find(k))] for a present key. *)
Fixpoint erase (k : string) (m : t) : t :=
  match m with
  | [] => []
  | (k', v') :: m' =>
      match String.compare k k' with
      | Lt => m
      | Eq => m'
      | Gt => (k', v') :: erase k m'
      end
  end.

(** The representation invariant of the tree: keys strictly ascending. *)
Definition sorted (m : t) : Prop := StronglySorted key_lt (keys m).

End Ops.

Arguments t V : clear implicits.

End StdMap.

(* ------------------------------------------------------------------ *)
(** ** [uint32_t] and [double] *)

Definition UINT32_MOD : Z := 2 ^ 32.

Definition is_uint32 (n : Z) : Prop := 0 <= n < UINT32_MOD.

Definition add32 (a b : Z) : Z := (a + b) mod UINT32_MOD.

Definition sub32 (a b : Z) : Z := (a - b) mod UINT32_MOD.

(** [(double)n] for a [uint32_t n]: exact, every [uint32_t] is a binary64. *)
Definition double_of_uint32 (n : Z) : float := PrimFloat.of_uint63 (Uint63.of_Z n).

(** The integer part (toward zero) of a finite binary64 [±m·2^e]. *)
Definition trunc_finite (s : bool) (m : positive) (e : Z) : Z :=
  let a := if 0 <=? e then Z.pos m * 2 ^ e else Z.pos m / 2 ^ (- e) in
  if s then - a else a.

(** [(uint32_t)x] for a [double x]: the fractional part is discarded, and the
    behaviour is undefined when the result does not fit (also NaN and ±∞). *)
Definition uint32_of_double (x : float) : option Z :=
  match Prim2SF x with
  | S754_zero _ => Some 0
  | S754_finite s m e =>
      let n := trunc_finite s m e in
      if (0 <=? n) && (n <? UINT32_MOD) then Some n else None
  | S754_infinity _ | S754_nan => None
  end.

(** [std::min(a, b)] on [double]: [(b < a) ? b : a]. *)
Definition std_min (a b : float) : float :=
  if PrimFloat.ltb b a then b else a.

(* ------------------------------------------------------------------ *)
(** ** The data of [BrokerClient.hpp] *)

Inductive OrderKind : Type := Buy | Sell.

Record SecurityPosition : Type := mkPosition {
  name : string;
  quantity : Z;        (* uint32_t *)
  price : float        (* double *)
}.

Record Order : Type := mkOrder {
  kind : OrderKind;
  position : SecurityPosition
}.

Record BrokerClient : Type := mkClient {
  cashBalance_ : float;
  portfolio_ : StdMap.t SecurityPosition;
  transactions_ : list Order;
  outstandingBuyOrderMap_ : StdMap.t (list Order)
}.

(** [BrokerClient::BrokerClient(double cashBalance)]. *)
Definition new_BrokerClient (cashBalance : float) : BrokerClient :=
  {| cashBalance_ := cashBalance;
     portfolio_ := [];
     transactions_ := [];
     outstandingBuyOrderMap_ := [] |}.

Definition GetCashBalance (c : BrokerClient) : float := cashBalance_ c.

Definition GetTransactions (c : BrokerClient) : list Order := transactions_ c.

(** [GetPositions]: the mapped values in the iteration order of the map. *)
Definition GetPositions (c : BrokerClient) : list SecurityPosition :=
  StdMap.values (portfolio_ c).

(** A value-initialised [SecurityPosition], what [portfolio_[k]] inserts
    for an absent key. *)
Definition default_position : SecurityPosition :=
  {| name := EmptyString; quantity := 0; price := 0%float |}.

(* ------------------------------------------------------------------ *)
(** ** [BrokerClient::HandleBuy] *)

(** Lines 76-79: the weighted average price of an existing position and a
    new fill; the divisor is the wrapped [uint32_t] sum. *)
Definition weightedPrice (order : Order) (pos : SecurityPosition) : float :=
  ((double_of_uint32 (quantity (position order)) * price (position order)
    + double_of_uint32 (quantity pos) * price pos)
   / double_of_uint32 (add32 (quantity (position order)) (quantity pos)))%float.

Definition HandleBuy (c : BrokerClient) (order : Order) : BrokerClient :=
  let nm := name (position order) in
  let portfolio' :=
    match StdMap.find nm (portfolio_ c) with
    | Some pos =>
        StdMap.assign nm
          {| name := name pos;
             quantity := add32 (quantity pos) (quantity (position order));
             price := weightedPrice order pos |}
          (portfolio_ c)
    | None => StdMap.insert nm (position order) (portfolio_ c)
    end in
  let map1 :=
    match StdMap.find nm (outstandingBuyOrderMap_ c) with
    | None => StdMap.insert nm [] (outstandingBuyOrderMap_ c)
    | Some _ => outstandingBuyOrderMap_ c
    end in
  let map2 := StdMap.assign nm (StdMap.subscript [] nm map1 ++ [order]) map1 in
  {| cashBalance_ :=
       (cashBalance_ c
        - price (position order) * double_of_uint32 (quantity (position order)))%float;
     portfolio_ := portfolio';
     transactions_ := transactions_ c ++ [order];
     outstandingBuyOrderMap_ := map2 |}.

(* ------------------------------------------------------------------ *)
(** ** [BrokerClient::HandleSell] *)

(** The front lot after [buyOrder.position.quantity -= ...] (line 126). *)
Definition set_quantity (o : Order) (q : Z) : Order :=
  {| kind := kind o;
     position := {| name := name (position o);
                    quantity := q;
                    price := price (position o) |} |}.

(** Lines 116-132, the [while] loop over the FIFO queue. [want] is
    [order.position.quantity]; the result is the queue, [buyQuantityRemoved]
    and [buyValueRemoved] at loop exit. Each iteration that continues pops
    the front, so the recursion is on the queue; [front()] of an empty queue
    is undefined. *)
Fixpoint drain (queue : list Order) (want : Z)
    (buyQuantityRemoved : Z) (buyValueRemoved : float)
    : option (list Order * Z * float) :=
  if buyQuantityRemoved <? want then
    match queue with
    | [] => None
    | buyOrder :: rest =>
        let bq := quantity (position buyOrder) in
        let bp := price (position buyOrder) in
        if sub32 want buyQuantityRemoved >=? bq then
          drain rest want
            (add32 buyQuantityRemoved bq)
            (buyValueRemoved + double_of_uint32 bq * bp)%float
        else
          Some (set_quantity buyOrder (sub32 bq (sub32 want buyQuantityRemoved)) :: rest,
                want,
                (buyValueRemoved
                 + double_of_uint32 (sub32 want buyQuantityRemoved) * bp)%float)
    end
  else Some (queue, buyQuantityRemoved, buyValueRemoved).

(** Line 143: the divisor of the average-cost recomputation. *)
Definition sell_divisor (pos : SecurityPosition) (order : Order) : float :=
  double_of_uint32 (sub32 (quantity pos) (quantity (position order))).

(** Lines 141-144: the position after the recomputation, before the test
    for an exhausted position. *)
Definition reprice (pos : SecurityPosition) (order : Order)
    (buyValueRemoved : float) : SecurityPosition :=
  {| name := name pos;
     quantity := sub32 (quantity pos) (quantity (position order));
     price := ((price pos * double_of_uint32 (quantity pos) - buyValueRemoved)
               / sell_divisor pos order)%float |}.

Definition HandleSell (c : BrokerClient) (order : Order) : option BrokerClient :=
  let nm := name (position order) in
  let buyOrderQueue := StdMap.subscript [] nm (outstandingBuyOrderMap_ c) in
  match drain buyOrderQueue (quantity (position order)) 0 0%float with
  | None => None
  | Some (queue', _, buyValueRemoved) =>
      let pos := StdMap.subscript default_position nm (portfolio_ c) in
      let pos' := reprice pos order buyValueRemoved in
      let portfolio1 := StdMap.assign nm pos' (portfolio_ c) in
      let portfolio2 :=
        if quantity pos' =? 0 then StdMap.erase nm portfolio1 else portfolio1 in
      Some {| cashBalance_ :=
                (cashBalance_ c
                 + price (position order)
                   * double_of_uint32 (quantity (position order)))%float;
              portfolio_ := portfolio2;
              transactions_ := transactions_ c ++ [order];
              outstandingBuyOrderMap_ :=
                StdMap.assign nm queue' (outstandingBuyOrderMap_ c) |}
  end.

(* ------------------------------------------------------------------ *)
(** ** [BrokerClient::SubmitOrder] *)

(** Lines 22-23, before the conversion to [uint32_t]: the quotient
    [GetCashBalance() / order.position.price] is evaluated for every buy. *)
Definition buy_quotient (c : BrokerClient) (order : Order) : float :=
  (GetCashBalance c / price (position order))%float.

(** Lines 22-23: [quantityTransacted] on the buy path, the [double] minimum
    converted to [uint32_t]. *)
Definition buy_fill (c : BrokerClient) (order : Order) : option Z :=
  uint32_of_double
    (std_min (double_of_uint32 (quantity (position order))) (buy_quotient c order)).

(** Lines 28-32 and 48-52: [completedOrder], the order with the quantity
    transacted. *)
Definition completed (order : Order) (quantityTransacted : Z) : Order :=
  {| kind := kind order;
     position := {| name := name (position order);
                    quantity := quantityTransacted;
                    price := price (position order) |} |}.

(** The result is the returned quantity and the client after the call. *)
Definition SubmitOrder (c : BrokerClient) (order : Order)
    : option (Z * BrokerClient) :=
  match kind order with
  | Buy =>
      match buy_fill c order with
      | None => None
      | Some quantityTransacted =>
          if quantityTransacted =? 0 then Some (0, c)
          else Some (quantityTransacted,
                     HandleBuy c (completed order quantityTransacted))
      end
  | Sell =>
      match StdMap.find (name (position order)) (portfolio_ c) with
      | None => Some (0, c)
      | Some pos =>
          let quantityTransacted :=
            Z.min (quantity (position order)) (quantity pos) in
          match HandleSell c (completed order quantityTransacted) with
          | None => None
          | Some c' => Some (quantityTransacted, c')
          end
      end
  end.

(** A sequence of [SubmitOrder] calls; the returned quantities are dropped. *)
Fixpoint SubmitOrders (c : BrokerClient) (orders : list Order)
    : option BrokerClient :=
  match orders with
  | [] => Some c
  | o :: rest =>
      match SubmitOrder c o with
      | None => None
      | Some (_, c') => SubmitOrders c' rest
      end
  end.

(** The orders of the tests: [{.kind = Buy, .position = {nm, q, p}}]. *)
Definition buy (nm : string) (q : Z) (p : float) : Order :=
  {| kind := Buy; position := {| name := nm; quantity := q; price := p |} |}.

Definition sell (nm : string) (q : Z) (p : float) : Order :=
  {| kind := Sell; position := {| name := nm; quantity := q; price := p |} |}.

(* ------------------------------------------------------------------ *)
(** ** Reachable clients and the quantities the invariants speak of *)

(** An order as the type [Order] admits it: the quantity is a [uint32_t]. *)
Definition well_formed (order : Order) : Prop :=
  is_uint32 (quantity (position order)).

(** The clients a program can obtain: constructed, then driven by
    [SubmitOrder] calls that have defined behaviour. *)
Inductive reachable : BrokerClient -> Prop :=
| reachable_new (cash : float) : reachable (new_BrokerClient cash)
| reachable_submit (c c' : BrokerClient) (order : Order) (n : Z) :
    reachable c ->
    well_formed order ->
    SubmitOrder c order = Some (n, c') ->
    reachable c'.

(** Quantity recorded in the portfolio for [nm], 0 if absent. *)
Definition held (c : BrokerClient) (nm : string) : Z :=
  match StdMap.find nm (portfolio_ c) with
  | Some pos => quantity pos
  | None => 0
  end.

(** Sum, as an integer, of the quantities of a queue of buy lots. *)
Definition queue_total (queue : list Order) : Z :=
  fold_right (fun o acc => quantity (position o) + acc) 0 queue.

(** Sum of the quantities of the FIFO queue of [nm], 0 if absent. *)
Definition queued (c : BrokerClient) (nm : string) : Z :=
  queue_total (StdMap.subscript [] nm (outstandingBuyOrderMap_ c)).

(** A lot of a FIFO queue: a non-zero [uint32_t] quantity. *)
Definition lot_ok (o : Order) : Prop :=
  0 < quantity (position o) < UINT32_MOD.

(** The invariant maintained by [SubmitOrder]. *)
Record Inv (c : BrokerClient) : Prop := {
  inv_portfolio_sorted : StdMap.sorted (portfolio_ c);
  inv_queues_sorted : StdMap.sorted (outstandingBuyOrderMap_ c);
  inv_entry : forall nm pos,
      StdMap.find nm (portfolio_ c) = Some pos ->
      name pos = nm /\ is_uint32 (quantity pos);
  inv_lots : forall nm queue,
      StdMap.find nm (outstandingBuyOrderMap_ c) = Some queue ->
      Forall lot_ok queue;
  inv_quantity : forall nm, held c nm = queued c nm mod UINT32_MOD
}.

(** A finite [double] times the integer [k], exactly, as [(n, e)] for the
    rational [n * 2^e]: for statements in exact arithmetic. *)
Definition exact_times (k : Z) (x : float) : option (Z * Z) :=
  match Prim2SF x with
  | S754_zero _ => Some (0, 0)
  | S754_finite s m e => Some (k * (if s then Z.neg m else Z.pos m), e)
  | S754_infinity _ | S754_nan => None
  end.

(** [k * x] against [y] in exact arithmetic, for finite [x] and [y]. *)
Definition exact_compare (k : Z) (x y : float) : option comparison :=
  match exact_times k x, exact_times 1 y with
  | Some (nx, ex), Some (ny, ey) =>
      let e := Z.min ex ey in
      Some (Z.compare (nx * 2 ^ (ex - e)) (ny * 2 ^ (ey - e)))
  | _, _ => None
  end.

(* ------------------------------------------------------------------ *)
(** ** Clients used as concrete inputs *)

(** [BrokerClient(10000)] after a buy of 10 AAPL at 100, as in
    [testBuySellSimple]. *)
Definition holding_AAPL : BrokerClient :=
  HandleBuy (new_BrokerClient 10000) (buy "AAPL" 10 100).

(** [BrokerClient(1e10)] after two buys of [UINT32_MAX] shares at 1. *)
Definition twice_UINT32_MAX : BrokerClient :=
  HandleBuy (HandleBuy (new_BrokerClient 1e10) (buy "AAPL" 4294967295 1))
            (buy "AAPL" 4294967295 1).

(** [BrokerClient(10000)] after buying MSFT, AAPL and GOOG in that order. *)
Definition three_tickers : BrokerClient :=
  HandleBuy (HandleBuy (HandleBuy (new_BrokerClient 10000) (buy "MSFT" 1 300))
                       (buy "AAPL" 2 100))
            (buy "GOOG" 3 150).

(* ------------------------------------------------------------------ *)
(** ** The four ways a call returns *)

(** The paths of [SubmitOrder] that return. *)
Variant submit_path (c : BrokerClient) (order : Order) (n : Z) (c' : BrokerClient) : Prop :=
| path_buy_nothing :
    kind order = Buy -> buy_fill c order = Some 0 -> n = 0 -> c' = c ->
    submit_path c order n c'
| path_buy :
    kind order = Buy -> buy_fill c order = Some n -> 0 < n < UINT32_MOD ->
    c' = HandleBuy c (completed order n) ->
    submit_path c order n c'
| path_sell_absent :
    kind order = Sell -> StdMap.find (name (position order)) (portfolio_ c) = None ->
    n = 0 -> c' = c ->
    submit_path c order n c'
| path_sell (pos : SecurityPosition) :
    kind order = Sell -> StdMap.find (name (position order)) (portfolio_ c) = Some pos ->
    n = Z.min (quantity (position order)) (quantity pos) ->
    HandleSell c (completed order n) = Some c' ->
    submit_path c order n c'.

(* ------------------------------------------------------------------ *)
(** ** A sequence of calls and the entries it logs *)

(** [calls c trace c']: the calls of [trace], each an order with the
    quantity its [SubmitOrder] returned, lead from [c] to [c']. *)
Inductive calls : BrokerClient -> list (Order * Z) -> BrokerClient -> Prop :=
| calls_nil (c : BrokerClient) : calls c [] c
| calls_cons (c c1 c' : BrokerClient) (order : Order) (n : Z)
    (rest : list (Order * Z)) :
    SubmitOrder c order = Some (n, c1) ->
    calls c1 rest c' ->
    calls c ((order, n) :: rest) c'.

(** [logged trace added]: [added] lists, in call order, the order of each
    call with the returned quantity in place of the requested one; only a
    call that returned 0 may be left out. *)
Inductive logged : list (Order * Z) -> list Order -> Prop :=
| logged_nil : logged [] []
| logged_skip (order : Order) (rest : list (Order * Z)) (added : list Order) :
    logged rest added ->
    logged ((order, 0) :: rest) added
| logged_keep (order : Order) (n : Z) (rest : list (Order * Z)) (added : list Order) :
    logged rest added ->
    logged ((order, n) :: rest) (completed order n :: added).

(* ------------------------------------------------------------------ *)
(** ** What a sell leaves of a FIFO queue *)

(** [new] is [old] with its first [k] lots popped and, possibly, the lot
    then at the front reduced to a smaller non-zero quantity. *)
Definition fifo_remainder (old new : list Order) : Prop :=
  exists k,
    new = skipn k old \/
    exists lot rest q,
      skipn k old = lot :: rest /\
      new = set_quantity lot q :: rest /\
      0 < q < quantity (position lot).

(** A lot as the queue of [nm] holds it: a buy order of [nm] with a
    non-zero quantity. *)
Definition buy_lot_of (nm : string) (o : Order) : Prop :=
  kind o = Buy /\ name (position o) = nm /\ lot_ok o.

(* ------------------------------------------------------------------ *)
(** ** [BrokerClientTests.cpp] *)

(** [a.kind == b.kind] on the enumeration. *)
Definition OrderKind_eqb (a b : OrderKind) : bool :=
  match a, b with
  | Buy, Buy | Sell, Sell => true
  | _, _ => false
  end.

(** [positionsEqual]: [==] on [std::string], on [double] (IEEE equality)
    and on [uint32_t]. *)
Definition positionsEqual (a b : SecurityPosition) : bool :=
  String.eqb (name a) (name b)
  && PrimFloat.eqb (price a) (price b)
  && (quantity a =? quantity b).

(** [ordersEqual]. *)
Definition ordersEqual (a b : Order) : bool :=
  OrderKind_eqb (kind a) (kind b) && positionsEqual (position a) (position b).

(** A test is a computation that stops at the first failed [assert] or at
    undefined behaviour ([None]), and otherwise runs to its end. *)
Definition assert (b : bool) : option unit :=
  if b then Some tt else None.

Notation "x <- e ;; k" :=
  (match e with Some x => k | None => None end)
  (at level 61, e at next level, right associativity).

Notation "' pat <- e ;; k" :=
  (match e with Some pat => k | None => None end)
  (at level 61, pat pattern, e at next level, right associativity).

(** [v.empty()] on a [std::vector]. *)
Definition empty {A : Type} (v : list A) : bool :=
  match v with [] => true | _ :: _ => false end.

(** [v[i]] on a [std::vector]: undefined past the end. *)
Definition at_index {A : Type} (v : list A) (i : nat) : option A := nth_error v i.

Definition testEmpty : option unit :=
  let client := new_BrokerClient 10000 in
  _ <- assert (empty (GetPositions client)) ;;
  assert (empty (GetTransactions client)).

Definition testBuySimple : option unit :=
  let client := new_BrokerClient 10000 in
  let order := buy "AAPL" 10 100 in
  '(bought, client) <- SubmitOrder client order ;;
  _ <- assert (bought =? 10) ;;
  let portfolio := GetPositions client in
  p0 <- at_index portfolio 0 ;;
  _ <- assert (positionsEqual p0 (position order)) ;;
  let orders := GetTransactions client in
  o0 <- at_index orders 0 ;;
  assert (ordersEqual o0 order).

Definition testBuyPartial : option unit :=
  let client := new_BrokerClient 10000 in
  let order := buy "AAPL" 101 100 in
  '(bought, client) <- SubmitOrder client order ;;
  _ <- assert (bought =? 100) ;;
  let expectedOrder := buy "AAPL" 100 100 in
  let portfolio := GetPositions client in
  p0 <- at_index portfolio 0 ;;
  _ <- assert (positionsEqual p0 (position expectedOrder)) ;;
  let orders := GetTransactions client in
  o0 <- at_index orders 0 ;;
  _ <- assert (ordersEqual o0 expectedOrder) ;;
  assert (PrimFloat.eqb (GetCashBalance client) 0).

Definition testBuySellMultipleAvgPrice : option unit :=
  let client := new_BrokerClient 10000 in
  let order1 := buy "AAPL" 10 10 in
  '(transacted, client) <- SubmitOrder client order1 ;;
  _ <- assert (transacted =? 10) ;;
  let order2 := buy "AAPL" 10 40 in
  '(transacted, client) <- SubmitOrder client order2 ;;
  _ <- assert (transacted =? 10) ;;
  p0 <- at_index (GetPositions client) 0 ;;
  _ <- assert (PrimFloat.eqb (price p0) 25) ;;
  _ <- assert (quantity p0 =? 20) ;;
  let order3 := sell "AAPL" 5 60 in
  '(transacted, client) <- SubmitOrder client order3 ;;
  _ <- assert (transacted =? 5) ;;
  p0 <- at_index (GetPositions client) 0 ;;
  _ <- assert (PrimFloat.eqb (price p0) 30) ;;
  _ <- assert (quantity p0 =? 15) ;;
  let order4 := sell "AAPL" 10 60 in
  '(transacted, client) <- SubmitOrder client order4 ;;
  _ <- assert (transacted =? 10) ;;
  p0 <- at_index (GetPositions client) 0 ;;
  _ <- assert (PrimFloat.eqb (price p0) 40) ;;
  _ <- assert (quantity p0 =? 5) ;;
  let order5 := buy "AAPL" 5 45 in
  '(transacted, client) <- SubmitOrder client order5 ;;
  _ <- assert (transacted =? 5) ;;
  p0 <- at_index (GetPositions client) 0 ;;
  _ <- assert (PrimFloat.eqb (price p0) 42.5) ;;
  _ <- assert (quantity p0 =? 10) ;;
  let orders := GetTransactions client in
  o0 <- at_index orders 0 ;;
  _ <- assert (ordersEqual o0 order1) ;;
  o1 <- at_index orders 1 ;;
  _ <- assert (ordersEqual o1 order2) ;;
  o2 <- at_index orders 2 ;;
  _ <- assert (ordersEqual o2 order3) ;;
  o3 <- at_index orders 3 ;;
  _ <- assert (ordersEqual o3 order4) ;;
  o4 <- at_index orders 4 ;;
  assert (ordersEqual o4 order5).

Definition testBuySellSimple : option unit :=
  let client := new_BrokerClient 10000 in
  let buyOrder := buy "AAPL" 10 100 in
  '(bought, client) <- SubmitOrder client buyOrder ;;
  _ <- assert (bought =? 10) ;;
  let sellOrder := sell "AAPL" 10 100 in
  '(sold, client) <- SubmitOrder client sellOrder ;;
  _ <- assert (sold =? bought) ;;
  assert (empty (GetPositions client)).

Definition testBuySellCheckProfit : option unit :=
  let client := new_BrokerClient 10000 in
  let buyOrder := buy "AAPL" 10 100 in
  '(bought, client) <- SubmitOrder client buyOrder ;;
  _ <- assert (bought =? 10) ;;
  let sellOrder := sell "AAPL" 10 200 in
  '(sold, client) <- SubmitOrder client sellOrder ;;
  _ <- assert (sold =? bought) ;;
  _ <- assert (PrimFloat.eqb (GetCashBalance client) 11000) ;;
  assert (empty (GetPositions client)).

Definition testSellNone : option unit :=
  let client := new_BrokerClient 10000 in
  let order := sell "AAPL" 10 100 in
  '(sold, client) <- SubmitOrder client order ;;
  _ <- assert (sold =? 0) ;;
  _ <- assert (empty (GetPositions client)) ;;
  assert (empty (GetTransactions client)).

(** [main]: the seven tests in order. *)
Definition main : option unit :=
  _ <- testEmpty ;;
  _ <- testBuySimple ;;
  _ <- testBuyPartial ;;
  _ <- testBuySellMultipleAvgPrice ;;
  _ <- testBuySellSimple ;;
  _ <- testBuySellCheckProfit ;;
  testSellNone.

(* ================================================================== *)
(** * Facts about the ordered map *)

Module StdMapFacts.
Import StdMap.

Lemma ascii_compare_refl (a : ascii) : Ascii.compare a a = Eq.
Proof. unfold Ascii.compare. apply N.compare_refl. Qed.

Lemma ascii_compare_lt_trans (a b c : ascii) :
  Ascii.compare a b = Lt -> Ascii.compare b c = Lt -> Ascii.compare a c = Lt.
Proof.
  unfold Ascii.compare. rewrite !N.compare_lt_iff. apply N.lt_trans.
Qed.

Lemma compare_refl (k : string) : String.compare k k = Eq.
Proof.
  induction k as [|a k IH]; simpl; [reflexivity|].
  now rewrite ascii_compare_refl.
Qed.

Lemma compare_eq (a b : string) : String.compare a b = Eq -> a = b.
Proof. apply String.compare_eq_iff. Qed.

Lemma compare_gt_lt (a b : string) :
  String.compare a b = Gt -> String.compare b a = Lt.
Proof.
  intros H. rewrite String.compare_antisym, H. reflexivity.
Qed.

Lemma compare_lt_gt (a b : string) :
  String.compare a b = Lt -> String.compare b a = Gt.
Proof.
  intros H. rewrite String.compare_antisym, H. reflexivity.
Qed.

Lemma key_lt_trans (a b c : string) : key_lt a b -> key_lt b c -> key_lt a c.
Proof.
  unfold key_lt. revert b c.
  induction a as [|x a IH]; intros [|y b] [|z c]; simpl; try discriminate; auto.
  destruct (Ascii.compare x y) eqn:Exy; try discriminate;
    destruct (Ascii.compare y z) eqn:Eyz; try discriminate; intros Hab Hbc.
  - apply Ascii.compare_eq_iff in Exy, Eyz. subst.
    rewrite ascii_compare_refl. eauto.
  - apply Ascii.compare_eq_iff in Exy. subst. now rewrite Eyz.
  - apply Ascii.compare_eq_iff in Eyz. subst. now rewrite Exy.
  - now rewrite (ascii_compare_lt_trans _ _ _ Exy Eyz).
Qed.

Lemma key_lt_irrefl (a : string) : ~ key_lt a a.
Proof. unfold key_lt. rewrite compare_refl. discriminate. Qed.

Lemma key_lt_neq (a b : string) : key_lt a b -> a <> b.
Proof. intros H ->. exact (key_lt_irrefl _ H). Qed.

Lemma compareP (a b : string) : compare_cases a b (String.compare a b).
Proof.
  destruct (String.compare a b) eqn:E; constructor.
  - now apply compare_eq.
  - exact E.
  - now apply compare_gt_lt.
Qed.

Ltac cmp a b :=
  let H := fresh "Hcmp" in
  destruct (compareP a b) as [H|H|H]; [| try subst | ].

Section Facts.
Context {V : Type}.
Implicit Types (m : StdMap.t V) (k : string) (v : V).

Lemma sorted_nil : sorted (@nil (string * V)).
Proof. constructor. Qed.

Lemma sorted_inv k v m :
  sorted ((k, v) :: m) -> sorted m /\ Forall (key_lt k) (keys m).
Proof. intros H. now apply StronglySorted_inv in H. Qed.

Lemma sorted_cons k v m :
  sorted m -> Forall (key_lt k) (keys m) -> sorted ((k, v) :: m).
Proof. intros. now constructor. Qed.

Lemma find_below k m : Forall (key_lt k) (keys m) -> find k m = None.
Proof.
  destruct m as [|[k' v'] m]; simpl; [reflexivity|].
  intros H. apply Forall_inv in H. simpl in H. unfold key_lt in H.
  now rewrite H.
Qed.

Lemma Forall_lt_weaken k k' (l : list string) :
  key_lt k k' -> Forall (key_lt k') l -> Forall (key_lt k) l.
Proof.
  intros Hk. apply Forall_impl. intros a. now apply key_lt_trans.
Qed.

(** *** [find] after [insert] *)

Lemma find_insert_same k v m :
  find k (insert k v m) = match find k m with Some v' => Some v' | None => Some v end.
Proof.
  induction m as [|[k' v'] m IH]; simpl.
  - now rewrite compare_refl.
  - destruct (String.compare k k') eqn:E; simpl.
    + now rewrite E.
    + now rewrite compare_refl.
    + now rewrite E.
Qed.

Lemma find_insert_other k k' v m :
  k <> k' -> find k' (insert k v m) = find k' m.
Proof.
  intros Hne. induction m as [|[k1 v1] m IH]; simpl.
  - cmp k' k; congruence.
  - cmp k k1; simpl.
    + cmp k' k; try congruence.
      assert (key_lt k' k1) as -> by eauto using key_lt_trans. reflexivity.
    + reflexivity.
    + now rewrite IH.
Qed.

(** *** [find] after [assign] *)

Lemma find_assign_same k v m : find k (assign k v m) = Some v.
Proof.
  induction m as [|[k' v'] m IH]; simpl.
  - now rewrite compare_refl.
  - destruct (String.compare k k') eqn:E; simpl.
    + now rewrite compare_refl.
    + now rewrite compare_refl.
    + now rewrite E.
Qed.

Lemma find_assign_other k k' v m :
  k <> k' -> find k' (assign k v m) = find k' m.
Proof.
  intros Hne. induction m as [|[k1 v1] m IH]; simpl.
  - cmp k' k; congruence.
  - cmp k k1; simpl.
    + cmp k' k; try congruence.
      assert (key_lt k' k1) as -> by eauto using key_lt_trans. reflexivity.
    + cmp k' k1; congruence.
    + now rewrite IH.
Qed.

(** *** [find] after [erase] *)

Lemma find_erase_same k m : sorted m -> find k (erase k m) = None.
Proof.
  induction m as [|[k1 v1] m IH]; simpl; intros Hs; [reflexivity|].
  apply sorted_inv in Hs as [Hs Hall].
  cmp k k1; simpl.
  - now rewrite Hcmp.
  - now apply find_below.
  - rewrite (compare_lt_gt _ _ Hcmp). auto.
Qed.

Lemma find_erase_other k k' m :
  sorted m -> k <> k' -> find k' (erase k m) = find k' m.
Proof.
  induction m as [|[k1 v1] m IH]; simpl; intros Hs Hne; [reflexivity|].
  apply sorted_inv in Hs as [Hs Hall].
  cmp k k1; simpl.
  - reflexivity.
  - cmp k' k1; try congruence.
    apply find_below. eauto using Forall_lt_weaken.
  - now rewrite IH.
Qed.

(** *** Keys and sortedness *)

Lemma keys_insert_bound k0 k v m :
  key_lt k0 k -> Forall (key_lt k0) (keys m) ->
  Forall (key_lt k0) (keys (insert k v m)).
Proof.
  intros Hk. induction m as [|[k1 v1] m IH]; simpl; intros Hall.
  - now repeat constructor.
  - destruct (String.compare k k1); simpl.
    + assumption.
    + now constructor.
    + apply Forall_cons_iff in Hall as [? ?]. constructor; auto.
Qed.

Lemma keys_assign_bound k0 k v m :
  key_lt k0 k -> Forall (key_lt k0) (keys m) ->
  Forall (key_lt k0) (keys (assign k v m)).
Proof.
  intros Hk. induction m as [|[k1 v1] m IH]; simpl; intros Hall.
  - now repeat constructor.
  - destruct (String.compare k k1); simpl.
    + apply Forall_cons_iff in Hall as [? ?]. now constructor.
    + now constructor.
    + apply Forall_cons_iff in Hall as [? ?]. constructor; auto.
Qed.

Lemma keys_erase_bound k0 k m :
  Forall (key_lt k0) (keys m) -> Forall (key_lt k0) (keys (erase k m)).
Proof.
  induction m as [|[k1 v1] m IH]; simpl; intros Hall; [assumption|].
  apply Forall_cons_iff in Hall as [? ?].
  destruct (String.compare k k1); simpl; auto.
Qed.

Lemma sorted_insert k v m : sorted m -> sorted (insert k v m).
Proof.
  induction m as [|[k1 v1] m IH]; simpl; intros Hs.
  - apply sorted_cons; [apply sorted_nil | constructor].
  - pose proof Hs as Hs0. apply sorted_inv in Hs as [Hs Hall].
    cmp k k1.
    + apply sorted_cons; [assumption|]. simpl. constructor; [assumption|].
      eauto using Forall_lt_weaken.
    + assumption.
    + apply sorted_cons; auto using keys_insert_bound.
Qed.

Lemma sorted_assign k v m : sorted m -> sorted (assign k v m).
Proof.
  induction m as [|[k1 v1] m IH]; simpl; intros Hs.
  - apply sorted_cons; [apply sorted_nil | constructor].
  - pose proof Hs as Hs0. apply sorted_inv in Hs as [Hs Hall].
    cmp k k1.
    + apply sorted_cons; [assumption|]. simpl. constructor; [assumption|].
      eauto using Forall_lt_weaken.
    + apply sorted_cons; assumption.
    + apply sorted_cons; auto using keys_assign_bound.
Qed.

Lemma sorted_erase k m : sorted m -> sorted (erase k m).
Proof.
  induction m as [|[k1 v1] m IH]; simpl; intros Hs; [assumption|].
  pose proof Hs as Hs0. apply sorted_inv in Hs as [Hs Hall].
  destruct (String.compare k k1); auto.
  apply sorted_cons; auto using keys_erase_bound.
Qed.

(** *** Membership *)

Lemma find_Some_In k v m : find k m = Some v -> In (k, v) m.
Proof.
  induction m as [|[k1 v1] m IH]; simpl; [discriminate|].
  cmp k k1; intros H; try discriminate.
  - injection H as ->. now left.
  - right. auto.
Qed.

Lemma In_find_Some k v m : sorted m -> In (k, v) m -> find k m = Some v.
Proof.
  induction m as [|[k1 v1] m IH]; simpl; intros Hs Hin; [contradiction|].
  apply sorted_inv in Hs as [Hs Hall].
  destruct Hin as [Heq|Hin].
  - injection Heq as -> ->. now rewrite compare_refl.
  - assert (key_lt k1 k) as Hlt.
    { rewrite Forall_forall in Hall. apply Hall.
      unfold keys. change k with (fst (k, v)). now apply in_map. }
    rewrite (compare_lt_gt _ _ Hlt). auto.
Qed.

Lemma sorted_NoDup_keys m : sorted m -> NoDup (keys m).
Proof.
  induction m as [|[k1 v1] m IH]; simpl; intros Hs; [constructor|].
  apply sorted_inv in Hs as [Hs Hall]. constructor; auto.
  intros Hin. rewrite Forall_forall in Hall.
  exact (key_lt_irrefl _ (Hall _ Hin)).
Qed.

End Facts.

End StdMapFacts.

(* ================================================================== *)
(** * Facts about [double] and its conversions *)

Module DoubleFacts.

Lemma iter_xO_value (p k : positive) :
  Z.pos (Pos.iter xO p k) = Z.pos p * 2 ^ Z.pos k.
Proof.
  induction k as [|k IH] using Pos.peano_ind.
  - simpl. lia.
  - rewrite Pos.iter_succ, Pos2Z.inj_succ, Z.pow_succ_r by lia.
    rewrite Pos2Z.inj_xO, IH. lia.
Qed.

Lemma iter_xO_digits (p k : positive) :
  digits2_pos (Pos.iter xO p k) = (digits2_pos p + k)%positive.
Proof.
  induction k as [|k IH] using Pos.peano_ind.
  - simpl. lia.
  - rewrite Pos.iter_succ. simpl. rewrite IH. lia.
Qed.

Lemma digits2_pos_lower (p : positive) :
  2 ^ (Z.pos (digits2_pos p) - 1) <= Z.pos p.
Proof.
  induction p as [p IH|p IH|]; simpl digits2_pos.
  - rewrite Pos2Z.inj_succ.
    replace (Z.succ (Z.pos (digits2_pos p)) - 1) with (Z.succ (Z.pos (digits2_pos p) - 1)) by lia.
    rewrite Z.pow_succ_r by lia. lia.
  - rewrite Pos2Z.inj_succ.
    replace (Z.succ (Z.pos (digits2_pos p)) - 1) with (Z.succ (Z.pos (digits2_pos p) - 1)) by lia.
    rewrite Z.pow_succ_r by lia. lia.
  - simpl. lia.
Qed.

Lemma digits2_pos_uint32 (p : positive) :
  Z.pos p < UINT32_MOD -> Z.pos (digits2_pos p) <= 32.
Proof.
  intros Hp. pose proof (digits2_pos_lower p) as Hl.
  destruct (Z_le_gt_dec (Z.pos (digits2_pos p)) 32) as [|Hgt]; [assumption|].
  exfalso. assert (2 ^ 32 <= 2 ^ (Z.pos (digits2_pos p) - 1)).
  { apply Z.pow_le_mono_r; lia. }
  unfold UINT32_MOD in Hp. lia.
Qed.

(** A mantissa of exactly 53 bits with an exponent in range is already
    rounded. *)
Lemma binary_round_aux_exact (s : bool) (m : positive) (e : Z) :
  Z.pos (digits2_pos m) = 53 -> -1074 <= e <= 971 ->
  binary_round_aux prec emax s (Z.pos m) e loc_Exact = S754_finite s m e.
Proof.
  intros Hd He.
  unfold binary_round_aux, shr_fexp, Zdigits2, shr_record_of_loc.
  rewrite Hd.
  assert (fexp prec emax (53 + e) - e = 0) as ->.
  { unfold fexp, SpecFloat.emin, prec, emax. lia. }
  simpl shr. cbv iota beta. simpl round_nearest_even. simpl shr_m.
  unfold Zdigits2. rewrite Hd.
  assert (fexp prec emax (53 + e) - e = 0) as ->.
  { unfold fexp, SpecFloat.emin, prec, emax. lia. }
  simpl.
  destruct (e <=? 971) eqn:E; [reflexivity|]. apply Z.leb_gt in E. lia.
Qed.


Lemma to_Z_of_uint32 (n : Z) : is_uint32 n -> Uint63.to_Z (Uint63.of_Z n) = n.
Proof.
  intros [H0 H1]. rewrite Uint63.of_Z_spec. apply Z.mod_small.
  unfold UINT32_MOD in H1. unfold wB. simpl. lia.
Qed.

(** [(double)n] of a positive [uint32_t]: the mantissa is [n] shifted left
    to 53 bits, so the value is exactly [n]. *)
Lemma Prim2SF_double_of_uint32_pos (p : positive) :
  Z.pos p < UINT32_MOD ->
  let k := Z.to_pos (53 - Z.pos (digits2_pos p)) in
  Prim2SF (double_of_uint32 (Z.pos p)) = S754_finite false (Pos.iter xO p k) (Z.neg k).
Proof.
  intros Hp k. pose proof (digits2_pos_uint32 p Hp) as Hd.
  unfold double_of_uint32.
  rewrite of_uint63_spec, to_Z_of_uint32 by (unfold is_uint32; lia).
  unfold binary_normalize, binary_round, shl_align.
  assert (fexp prec emax (Z.pos (digits2_pos p) + 0) - 0 = Z.neg k) as ->.
  { unfold fexp, SpecFloat.emin, prec, emax, k. lia. }
  assert (fexp prec emax (Z.pos (digits2_pos p) + 0) = Z.neg k) as ->.
  { unfold fexp, SpecFloat.emin, prec, emax, k. lia. }
  apply binary_round_aux_exact.
  - rewrite iter_xO_digits. unfold k. lia.
  - unfold k. lia.
Qed.

Lemma double_of_uint32_zero : double_of_uint32 0 = 0%float.
Proof. reflexivity. Qed.

Lemma trunc_double_of_uint32 (p : positive) (k : positive) :
  trunc_finite false (Pos.iter xO p k) (Z.neg k) = Z.pos p.
Proof.
  unfold trunc_finite. simpl Z.leb. cbv iota.
  rewrite iter_xO_value. simpl Z.opp.
  apply Z.div_mul. apply Z.pow_nonzero; lia.
Qed.

(** The conversion back is the identity on [uint32_t]. *)
Lemma uint32_of_double_of_uint32 (n : Z) :
  is_uint32 n -> uint32_of_double (double_of_uint32 n) = Some n.
Proof.
  intros Hn. destruct n as [|p|p]; [reflexivity| |destruct Hn; lia].
  unfold uint32_of_double.
  rewrite Prim2SF_double_of_uint32_pos by (destruct Hn; assumption).
  rewrite trunc_double_of_uint32.
  destruct Hn as [H0 H1].
  apply Z.leb_le in H0. apply Z.ltb_lt in H1. now rewrite H0, H1.
Qed.

Lemma uint32_of_double_range (x : float) (n : Z) :
  uint32_of_double x = Some n -> is_uint32 n.
Proof.
  unfold uint32_of_double.
  destruct (Prim2SF x) as [s|s| |s m e]; try discriminate.
  - intros [= <-]. unfold is_uint32, UINT32_MOD. lia.
  - destruct (0 <=? trunc_finite s m e) eqn:E0; [|discriminate].
    destruct (trunc_finite s m e <? UINT32_MOD) eqn:E1; [|discriminate].
    intros [= <-]. apply Z.leb_le in E0. apply Z.ltb_lt in E1. now split.
Qed.

(** [(double)n] is [+0] or positive and finite. *)
Lemma double_of_uint32_class (n : Z) :
  is_uint32 n ->
  Prim2SF (double_of_uint32 n) = S754_zero false \/
  exists m e, Prim2SF (double_of_uint32 n) = S754_finite false m e.
Proof.
  intros Hn. destruct n as [|p|p]; [left; reflexivity| |destruct Hn; lia].
  right. rewrite Prim2SF_double_of_uint32_pos by (destruct Hn; assumption).
  eauto.
Qed.

(** [std::min((double)n, x)] keeps [(double)n] unless [x < (double)n]. *)
Lemma std_min_left (a b : float) : PrimFloat.ltb b a = false -> std_min a b = a.
Proof. unfold std_min. now intros ->. Qed.

(** Division of a non-negative [double] by [+0] gives NaN or [+inf], and
    neither is below [(double)n]. *)
Lemma div_zero_not_below (x : float) (n : Z) :
  PrimFloat.leb 0 x = true -> is_uint32 n ->
  PrimFloat.ltb (x / 0) (double_of_uint32 n) = false.
Proof.
  intros Hx Hn. rewrite FloatAxioms.leb_spec in Hx. rewrite FloatAxioms.ltb_spec, FloatAxioms.div_spec.
  change (Prim2SF 0) with (S754_zero false) in *.
  destruct (double_of_uint32_class n Hn) as [->|(m & e & ->)];
    destruct (Prim2SF x) as [s|s| |s mx ex]; try discriminate Hx;
    try destruct s; try discriminate Hx; reflexivity.
Qed.

Lemma div_zero_class (x : float) :
  PrimFloat.leb 0 x = true ->
  (x / 0)%float = nan \/ (x / 0)%float = infinity.
Proof.
  intros Hx. rewrite FloatAxioms.leb_spec in Hx.
  change (Prim2SF 0) with (S754_zero false) in *.
  destruct (Prim2SF x) as [s|s| |s mx ex] eqn:E; try discriminate Hx.
  - left. apply Prim2SF_inj. rewrite FloatAxioms.div_spec, E. reflexivity.
  - destruct s; [discriminate Hx|]. right.
    apply Prim2SF_inj. rewrite FloatAxioms.div_spec, E. reflexivity.
  - destruct s; [discriminate Hx|]. right.
    apply Prim2SF_inj. rewrite FloatAxioms.div_spec, E. reflexivity.
Qed.

(** [0 * (double)n] is [+0]. *)
Lemma mul_zero_double_of_uint32 (n : Z) :
  is_uint32 n -> (0 * double_of_uint32 n)%float = 0%float.
Proof.
  intros Hn. apply Prim2SF_inj. rewrite FloatAxioms.mul_spec.
  change (Prim2SF 0) with (S754_zero false).
  destruct (double_of_uint32_class n Hn) as [->|(m & e & ->)]; reflexivity.
Qed.

(** Subtracting [+0] changes nothing, whatever the left operand. *)
Lemma sub_zero (x : float) : (x - 0)%float = x.
Proof.
  apply Prim2SF_inj. rewrite FloatAxioms.sub_spec.
  change (Prim2SF 0) with (S754_zero false).
  destruct (Prim2SF x) as [s|s| |s mx ex]; try destruct s; reflexivity.
Qed.

End DoubleFacts.

(* ================================================================== *)
(** * The invariant of the client *)

Module InvariantFacts.
Import StdMap StdMapFacts DoubleFacts.

Lemma UINT32_MOD_pos : 0 < UINT32_MOD.
Proof. reflexivity. Qed.

Lemma add32_small (a b : Z) : 0 <= a + b < UINT32_MOD -> add32 a b = a + b.
Proof. intros H. unfold add32. now apply Z.mod_small. Qed.

Lemma sub32_small (a b : Z) : 0 <= a - b < UINT32_MOD -> sub32 a b = a - b.
Proof. intros H. unfold sub32. now apply Z.mod_small. Qed.

Lemma Zminus_mod_idemp_l_alt (a b : Z) :
  (a - b) mod UINT32_MOD = (a mod UINT32_MOD - b) mod UINT32_MOD.
Proof. now rewrite Zminus_mod_idemp_l. Qed.

Lemma queue_total_app (queue : list Order) (o : Order) :
  queue_total (queue ++ [o]) = queue_total queue + quantity (position o).
Proof.
  induction queue as [|x queue IH]; simpl; [lia|]. rewrite IH. lia.
Qed.

Lemma queue_total_nonneg (queue : list Order) :
  Forall lot_ok queue -> 0 <= queue_total queue.
Proof.
  induction 1 as [|o queue Ho _ IH]; simpl; [lia|]. unfold lot_ok in Ho. lia.
Qed.

(** The loop of [HandleSell] terminates with a result whenever the queue
    holds at least the quantity still to remove: it removes exactly that. *)
Lemma drain_enough (queue : list Order) :
  forall (want removed : Z) (value : float),
    Forall lot_ok queue ->
    0 <= removed <= want -> want < UINT32_MOD ->
    want - removed <= queue_total queue ->
    exists queue' value',
      drain queue want removed value = Some (queue', want, value') /\
      queue_total queue' = queue_total queue - (want - removed) /\
      Forall lot_ok queue'.
Proof.
  induction queue as [|o queue IH]; intros want removed value Hq Hr Hw Hsum.
  - simpl in Hsum. assert (removed = want) as -> by lia.
    simpl. rewrite Z.ltb_irrefl. exists [], value. repeat split; [simpl; lia|constructor].
  - apply Forall_cons_iff in Hq as [Ho Hq]. unfold lot_ok in Ho.
    simpl. destruct (removed <? want) eqn:Elt.
    + apply Z.ltb_lt in Elt.
      rewrite sub32_small by lia.
      destruct (want - removed >=? quantity (position o)) eqn:Ege.
      * apply Z.geb_le in Ege.
        rewrite add32_small by lia.
        destruct (IH want (removed + quantity (position o))
                    (value + double_of_uint32 (quantity (position o)) * price (position o))%float)
          as (queue' & value' & Hd & Ht & Hl); try assumption; try lia.
        { simpl in Hsum. lia. }
        exists queue', value'. rewrite Hd. repeat split; [simpl; lia|assumption].
      * rewrite Z.geb_leb in Ege. apply Z.leb_gt in Ege.
        rewrite sub32_small by lia.
        eexists _, _. split; [reflexivity|]. split.
        { simpl. lia. }
        constructor; [unfold lot_ok; simpl; lia|assumption].
    + apply Z.ltb_ge in Elt. assert (removed = want) as -> by lia.
      exists (o :: queue), value. repeat split.
      * simpl. lia.
      * constructor; assumption.
Qed.


(** *** What [HandleBuy] leaves in the two maps *)

Lemma HandleBuy_portfolio_same (c : BrokerClient) (order : Order) :
  find (name (position order)) (portfolio_ (HandleBuy c order)) =
  match find (name (position order)) (portfolio_ c) with
  | Some pos =>
      Some {| name := name pos;
              quantity := add32 (quantity pos) (quantity (position order));
              price := weightedPrice order pos |}
  | None => Some (position order)
  end.
Proof.
  unfold HandleBuy; simpl.
  destruct (find (name (position order)) (portfolio_ c)) as [pos|] eqn:E.
  - apply find_assign_same.
  - now rewrite find_insert_same, E.
Qed.

Lemma HandleBuy_portfolio_other (c : BrokerClient) (order : Order) (nm : string) :
  name (position order) <> nm ->
  find nm (portfolio_ (HandleBuy c order)) = find nm (portfolio_ c).
Proof.
  intros Hne. unfold HandleBuy; simpl.
  destruct (find (name (position order)) (portfolio_ c)) as [pos|].
  - now apply find_assign_other.
  - now apply find_insert_other.
Qed.

Lemma HandleBuy_queue_same (c : BrokerClient) (order : Order) :
  find (name (position order)) (outstandingBuyOrderMap_ (HandleBuy c order)) =
  Some (subscript [] (name (position order)) (outstandingBuyOrderMap_ c) ++ [order]).
Proof.
  unfold HandleBuy; simpl. rewrite find_assign_same. f_equal. f_equal.
  unfold subscript.
  destruct (find (name (position order)) (outstandingBuyOrderMap_ c)) as [q|] eqn:E.
  - now rewrite E.
  - now rewrite find_insert_same, E.
Qed.

Lemma HandleBuy_queue_other (c : BrokerClient) (order : Order) (nm : string) :
  name (position order) <> nm ->
  find nm (outstandingBuyOrderMap_ (HandleBuy c order)) =
  find nm (outstandingBuyOrderMap_ c).
Proof.
  intros Hne. unfold HandleBuy; simpl.
  rewrite find_assign_other by assumption.
  destruct (find (name (position order)) (outstandingBuyOrderMap_ c)).
  - reflexivity.
  - now apply find_insert_other.
Qed.

Lemma HandleBuy_sorted (c : BrokerClient) (order : Order) :
  sorted (portfolio_ c) -> sorted (outstandingBuyOrderMap_ c) ->
  sorted (portfolio_ (HandleBuy c order)) /\
  sorted (outstandingBuyOrderMap_ (HandleBuy c order)).
Proof.
  intros Hp Hq. unfold HandleBuy; simpl. split.
  - destruct (find _ (portfolio_ c)); auto using sorted_assign, sorted_insert.
  - apply sorted_assign.
    destruct (find _ (outstandingBuyOrderMap_ c)); auto using sorted_insert.
Qed.

Lemma subscript_lots (c : BrokerClient) (nm : string) :
  Inv c -> Forall lot_ok (subscript [] nm (outstandingBuyOrderMap_ c)).
Proof.
  intros HI. unfold subscript.
  destruct (find nm (outstandingBuyOrderMap_ c)) eqn:E; [|constructor].
  exact (inv_lots c HI nm _ E).
Qed.

Lemma queued_nonneg (c : BrokerClient) (nm : string) : Inv c -> 0 <= queued c nm.
Proof. intros HI. apply queue_total_nonneg. now apply subscript_lots. Qed.

Lemma held_le_queued (c : BrokerClient) (nm : string) :
  Inv c -> 0 <= held c nm <= queued c nm.
Proof.
  intros HI. rewrite (inv_quantity c HI nm).
  pose proof (queued_nonneg c nm HI).
  pose proof (Z.mod_pos_bound (queued c nm) UINT32_MOD UINT32_MOD_pos).
  pose proof (Z.mod_le (queued c nm) UINT32_MOD H UINT32_MOD_pos). lia.
Qed.

Lemma Inv_new (cash : float) : Inv (new_BrokerClient cash).
Proof.
  constructor; simpl; try discriminate; constructor.
Qed.

Lemma Inv_HandleBuy (c : BrokerClient) (order : Order) :
  Inv c -> lot_ok order -> Inv (HandleBuy c order).
Proof.
  intros HI Ho. pose proof Ho as Ho'. unfold lot_ok in Ho'.
  destruct (HandleBuy_sorted c order (inv_portfolio_sorted c HI) (inv_queues_sorted c HI))
    as [Hsp Hsq].
  constructor; try assumption.
  - intros nm pos.
    destruct (string_dec (name (position order)) nm) as [<-|Hne].
    + rewrite HandleBuy_portfolio_same.
      destruct (find _ (portfolio_ c)) as [pos0|] eqn:E; intros [= <-]; simpl.
      * destruct (inv_entry c HI _ _ E) as [Hn _]. split; [assumption|].
        unfold add32. apply Z.mod_pos_bound, UINT32_MOD_pos.
      * split; [reflexivity|]. unfold is_uint32. lia.
    + rewrite HandleBuy_portfolio_other by assumption. apply (inv_entry c HI).
  - intros nm queue.
    destruct (string_dec (name (position order)) nm) as [<-|Hne].
    + rewrite HandleBuy_queue_same. intros [= <-].
      apply Forall_app. split; [now apply subscript_lots|].
      now constructor.
    + rewrite HandleBuy_queue_other by assumption. apply (inv_lots c HI).
  - intros nm. unfold held, queued, subscript.
    destruct (string_dec (name (position order)) nm) as [<-|Hne].
    + rewrite HandleBuy_portfolio_same, HandleBuy_queue_same, queue_total_app.
      pose proof (inv_quantity c HI (name (position order))) as Hq.
      unfold held, queued in Hq.
      destruct (find _ (portfolio_ c)) as [pos0|] eqn:E; simpl.
      * unfold add32. rewrite Hq. now rewrite Zplus_mod_idemp_l.
      * rewrite Zplus_mod, <- Hq. simpl.
        rewrite Z.mod_mod by (unfold UINT32_MOD; lia).
        symmetry. apply Z.mod_small. lia.
    + rewrite HandleBuy_portfolio_other, HandleBuy_queue_other by assumption.
      apply (inv_quantity c HI nm).
Qed.


(** *** What [HandleSell] does on a held security *)

(** On a client satisfying the invariant, a sell of no more than the held
    quantity has defined behaviour; the lemma names every component of the
    client it returns. *)
Lemma HandleSell_defined (c : BrokerClient) (order : Order) (pos : SecurityPosition) :
  Inv c ->
  find (name (position order)) (portfolio_ c) = Some pos ->
  0 <= quantity (position order) <= quantity pos ->
  exists queue' value' c',
    HandleSell c order = Some c' /\
    queue_total queue' = queued c (name (position order)) - quantity (position order) /\
    Forall lot_ok queue' /\
    cashBalance_ c' =
      (cashBalance_ c
       + price (position order) * double_of_uint32 (quantity (position order)))%float /\
    transactions_ c' = transactions_ c ++ [order] /\
    outstandingBuyOrderMap_ c' =
      assign (name (position order)) queue' (outstandingBuyOrderMap_ c) /\
    portfolio_ c' =
      (if quantity pos - quantity (position order) =? 0
       then erase (name (position order))
              (assign (name (position order)) (reprice pos order value') (portfolio_ c))
       else assign (name (position order)) (reprice pos order value') (portfolio_ c)).
Proof.
  intros HI Hfind Hq.
  destruct (inv_entry c HI _ _ Hfind) as [_ Hpos]. unfold is_uint32 in Hpos.
  pose proof (held_le_queued c (name (position order)) HI) as Hheld.
  unfold held in Hheld. rewrite Hfind in Hheld.
  destruct (drain_enough (subscript [] (name (position order)) (outstandingBuyOrderMap_ c))
              (quantity (position order)) 0 0%float)
    as (queue' & value' & Hd & Ht & Hl).
  { now apply subscript_lots. }
  { lia. }
  { lia. }
  { unfold queued in Hheld. lia. }
  exists queue', value'. unfold HandleSell. rewrite Hd.
  assert (subscript default_position (name (position order)) (portfolio_ c) = pos) as ->.
  { unfold subscript. now rewrite Hfind. }
  eexists. split; [reflexivity|]. simpl.
  rewrite sub32_small by lia.
  repeat split; try assumption.
  unfold queued. lia.
Qed.

Lemma Inv_HandleSell (c c' : BrokerClient) (order : Order) (pos : SecurityPosition) :
  Inv c ->
  find (name (position order)) (portfolio_ c) = Some pos ->
  0 <= quantity (position order) <= quantity pos ->
  HandleSell c order = Some c' ->
  Inv c'.
Proof.
  intros HI Hfind Hq Hsell.
  destruct (HandleSell_defined c order pos HI Hfind Hq)
    as (queue' & value' & c0 & Hsell' & Ht & Hl & _ & _ & Hmap & Hport).
  rewrite Hsell in Hsell'. injection Hsell' as <-.
  destruct (inv_entry c HI _ _ Hfind) as [Hname Hpos]. unfold is_uint32 in Hpos.
  pose proof (inv_portfolio_sorted c HI) as Hsp.
  pose proof (inv_queues_sorted c HI) as Hsq.
  set (nm := name (position order)) in *.
  set (pos' := reprice pos order value') in *.
  assert (Hsa : sorted (assign nm pos' (portfolio_ c))) by now apply sorted_assign.
  assert (Hsame : find nm (portfolio_ c') =
                  if quantity pos - quantity (position order) =? 0 then None else Some pos').
  { rewrite Hport. destruct (_ =? 0).
    - now apply find_erase_same.
    - apply find_assign_same. }
  assert (Hother : forall k, nm <> k -> find k (portfolio_ c') = find k (portfolio_ c)).
  { intros k Hk. rewrite Hport. destruct (_ =? 0).
    - rewrite find_erase_other by assumption. now apply find_assign_other.
    - now apply find_assign_other. }
  constructor.
  - rewrite Hport. destruct (_ =? 0); auto using sorted_erase.
  - rewrite Hmap. now apply sorted_assign.
  - intros k p. destruct (string_dec nm k) as [<-|Hne].
    + rewrite Hsame. destruct (_ =? 0); [discriminate|]. intros [= <-].
      unfold pos', reprice; simpl. split; [assumption|].
      rewrite sub32_small by lia. unfold is_uint32. lia.
    + rewrite Hother by assumption. apply (inv_entry c HI).
  - intros k queue. rewrite Hmap. destruct (string_dec nm k) as [<-|Hne].
    + rewrite find_assign_same. now intros [= <-].
    + rewrite find_assign_other by assumption. apply (inv_lots c HI).
  - intros k. unfold held, queued, subscript. rewrite Hmap.
    destruct (string_dec nm k) as [<-|Hne].
    + rewrite Hsame, find_assign_same, Ht.
      pose proof (inv_quantity c HI nm) as Hinv. unfold held in Hinv.
      rewrite Hfind in Hinv.
      rewrite Zminus_mod_idemp_l_alt.
      destruct (quantity pos - quantity (position order) =? 0) eqn:E.
      * apply Z.eqb_eq in E. rewrite <- Hinv, E. reflexivity.
      * unfold pos', reprice; simpl. rewrite sub32_small by lia.
        rewrite <- Hinv. symmetry. apply Z.mod_small. lia.
    + rewrite Hother, find_assign_other by assumption.
      apply (inv_quantity c HI k).
Qed.


(** *** [SubmitOrder] preserves the invariant *)

Lemma buy_fill_range (c : BrokerClient) (order : Order) (n : Z) :
  buy_fill c order = Some n -> is_uint32 n.
Proof. apply uint32_of_double_range. Qed.

(** [SubmitOrder] on a sell, for a client satisfying the invariant: the
    behaviour is defined and the returned quantity is the smaller of the
    requested and the held quantity. *)
Lemma SubmitOrder_sell_held (c : BrokerClient) (order : Order) (pos : SecurityPosition) :
  Inv c -> well_formed order -> kind order = Sell ->
  find (name (position order)) (portfolio_ c) = Some pos ->
  exists c',
    SubmitOrder c order =
      Some (Z.min (quantity (position order)) (quantity pos), c') /\
    HandleSell c (completed order (Z.min (quantity (position order)) (quantity pos)))
      = Some c'.
Proof.
  intros HI Hwf Hk Hfind. unfold SubmitOrder. rewrite Hk, Hfind.
  destruct (inv_entry c HI _ _ Hfind) as [_ Hpos].
  unfold well_formed, is_uint32 in *.
  set (n := Z.min _ _).
  destruct (HandleSell_defined c (completed order n) pos HI Hfind)
    as (queue' & value' & c' & Hsell & _).
  { simpl. unfold n. lia. }
  exists c'. now rewrite Hsell.
Qed.

Lemma Inv_SubmitOrder (c c' : BrokerClient) (order : Order) (n : Z) :
  Inv c -> well_formed order -> SubmitOrder c order = Some (n, c') -> Inv c'.
Proof.
  intros HI Hwf. unfold SubmitOrder.
  destruct (kind order) eqn:Hk.
  - destruct (buy_fill c order) as [q|] eqn:Hfill; [|discriminate].
    pose proof (buy_fill_range _ _ _ Hfill) as Hq. unfold is_uint32 in Hq.
    destruct (q =? 0) eqn:E.
    + now intros [= <- <-].
    + intros [= <- <-]. apply Z.eqb_neq in E.
      apply Inv_HandleBuy; [assumption|]. unfold lot_ok; simpl. lia.
  - destruct (find (name (position order)) (portfolio_ c)) as [pos|] eqn:Hfind.
    + destruct (HandleSell c _) as [c0|] eqn:Hsell; [|discriminate].
      intros [= <- <-].
      destruct (inv_entry c HI _ _ Hfind) as [_ Hpos].
      unfold well_formed, is_uint32 in *.
      apply (Inv_HandleSell c c0
               (completed order (Z.min (quantity (position order)) (quantity pos)))
               pos HI Hfind); [|exact Hsell].
      simpl. lia.
    + now intros [= <- <-].
Qed.

Lemma reachable_Inv (c : BrokerClient) : reachable c -> Inv c.
Proof.
  induction 1 as [cash|c c' order n _ IH Hwf Hs].
  - apply Inv_new.
  - exact (Inv_SubmitOrder c c' order n IH Hwf Hs).
Qed.

End InvariantFacts.

(* ================================================================== *)
(** * One call of [SubmitOrder], seen from one security *)

Module StepFacts.
Import StdMap StdMapFacts DoubleFacts InvariantFacts.

Lemma completed_same (order : Order) :
  completed order (quantity (position order)) = order.
Proof. destruct order as [k [nm q p]]. reflexivity. Qed.

Lemma no_lots (c : BrokerClient) (nm : string) :
  Inv c -> queued c nm = 0 -> subscript [] nm (outstandingBuyOrderMap_ c) = [].
Proof.
  intros HI Hq. pose proof (subscript_lots c nm HI) as Hl. unfold queued in Hq.
  destruct (subscript [] nm (outstandingBuyOrderMap_ c)) as [|o queue]; [reflexivity|].
  apply Forall_cons_iff in Hl as [Ho Hl]. unfold lot_ok in Ho.
  pose proof (queue_total_nonneg queue Hl). simpl in Hq. lia.
Qed.

(** A buy that the cash balance covers in full. *)
Lemma buy_step (c : BrokerClient) (order : Order) :
  Inv c -> kind order = Buy ->
  0 < quantity (position order) < UINT32_MOD ->
  PrimFloat.ltb (buy_quotient c order)
                (double_of_uint32 (quantity (position order))) = false ->
  exists c',
    SubmitOrder c order = Some (quantity (position order), c') /\
    Inv c' /\
    cashBalance_ c' =
      (cashBalance_ c
       - price (position order) * double_of_uint32 (quantity (position order)))%float /\
    find (name (position order)) (portfolio_ c') =
      match find (name (position order)) (portfolio_ c) with
      | Some pos =>
          Some {| name := name pos;
                  quantity := add32 (quantity pos) (quantity (position order));
                  price := weightedPrice order pos |}
      | None => Some (position order)
      end /\
    subscript [] (name (position order)) (outstandingBuyOrderMap_ c') =
      subscript [] (name (position order)) (outstandingBuyOrderMap_ c) ++ [order].
Proof.
  intros HI Hk Hq Hlt.
  assert (Hs : SubmitOrder c order
               = Some (quantity (position order), HandleBuy c order)).
  { unfold SubmitOrder, buy_fill. rewrite Hk, (std_min_left _ _ Hlt).
    rewrite uint32_of_double_of_uint32 by (unfold is_uint32; lia).
    destruct (quantity (position order) =? 0) eqn:E.
    - apply Z.eqb_eq in E. lia.
    - now rewrite completed_same. }
  exists (HandleBuy c order). split; [exact Hs|]. split.
  { apply (Inv_SubmitOrder c (HandleBuy c order) order (quantity (position order)) HI);
      [unfold well_formed, is_uint32; lia|exact Hs]. }
  split; [reflexivity|]. split.
  - apply HandleBuy_portfolio_same.
  - unfold subscript at 1. now rewrite HandleBuy_queue_same.
Qed.

(** A sell of a held security, given what the FIFO loop computes. *)
Lemma sell_step (c : BrokerClient) (order : Order) (pos : SecurityPosition)
    (queue' : list Order) (removed : Z) (value' : float) :
  Inv c -> kind order = Sell -> well_formed order ->
  find (name (position order)) (portfolio_ c) = Some pos ->
  drain (subscript [] (name (position order)) (outstandingBuyOrderMap_ c))
        (Z.min (quantity (position order)) (quantity pos)) 0 0%float
    = Some (queue', removed, value') ->
  exists c',
    SubmitOrder c order
      = Some (Z.min (quantity (position order)) (quantity pos), c') /\
    Inv c' /\
    cashBalance_ c' =
      (cashBalance_ c
       + price (position order)
         * double_of_uint32 (Z.min (quantity (position order)) (quantity pos)))%float /\
    find (name (position order)) (portfolio_ c') =
      (let pos' := reprice pos
                     (completed order (Z.min (quantity (position order)) (quantity pos)))
                     value' in
       if quantity pos' =? 0 then None else Some pos') /\
    subscript [] (name (position order)) (outstandingBuyOrderMap_ c') = queue'.
Proof.
  intros HI Hk Hwf Hfind Hd.
  pose proof (inv_portfolio_sorted c HI) as Hsp.
  set (fill := Z.min _ _) in *.
  assert (Hs : exists c', SubmitOrder c order = Some (fill, c') /\
      cashBalance_ c' =
        (cashBalance_ c + price (position order) * double_of_uint32 fill)%float /\
      portfolio_ c' =
        (let pos' := reprice pos (completed order fill) value' in
         let portfolio1 := assign (name (position order)) pos' (portfolio_ c) in
         if quantity pos' =? 0 then erase (name (position order)) portfolio1
         else portfolio1) /\
      outstandingBuyOrderMap_ c' =
        assign (name (position order)) queue' (outstandingBuyOrderMap_ c)).
  { unfold SubmitOrder. rewrite Hk, Hfind. fold fill.
    unfold HandleSell. simpl. rewrite Hd.
    assert (subscript default_position (name (position order)) (portfolio_ c) = pos) as ->.
    { unfold subscript. now rewrite Hfind. }
    eexists. split; [reflexivity|]. simpl. repeat split. }
  destruct Hs as (c' & Hs & Hcash & Hport & Hmap).
  exists c'. split; [exact Hs|]. split.
  { exact (Inv_SubmitOrder c c' order fill HI Hwf Hs). }
  split; [exact Hcash|]. split.
  - rewrite Hport. cbv zeta. destruct (_ =? 0).
    + apply find_erase_same. now apply sorted_assign.
    + apply find_assign_same.
  - unfold subscript. now rewrite Hmap, find_assign_same.
Qed.

End StepFacts.

(* ================================================================== *)
(** * Properties of the client *)

Module Properties.
Import StdMap StdMapFacts DoubleFacts InvariantFacts StepFacts.

(** ** The transaction log *)

(** A sell of quantity 0 of a held security is appended to the log: the
    sell path has no test for a zero fill. *)
Lemma zero_sell_appends (c : BrokerClient) (order : Order) (pos : SecurityPosition) :
  Inv c -> kind order = Sell -> quantity (position order) = 0 ->
  find (name (position order)) (portfolio_ c) = Some pos ->
  exists c',
    SubmitOrder c order = Some (0, c') /\
    GetTransactions c' = GetTransactions c ++ [order].
Proof.
  intros HI Hk Hq Hfind.
  destruct (inv_entry c HI _ _ Hfind) as [_ Hpos]. unfold is_uint32 in Hpos.
  assert (Hmin : Z.min (quantity (position order)) (quantity pos) = 0) by lia.
  unfold SubmitOrder. rewrite Hk, Hfind, Hmin.
  destruct (HandleSell_defined c (completed order 0) pos HI Hfind)
    as (queue' & value' & c' & Hsell & _ & _ & _ & Hlog & _).
  { simpl. lia. }
  rewrite Hsell. exists c'. split; [reflexivity|].
  unfold GetTransactions. rewrite Hlog. f_equal. f_equal.
  rewrite <- Hq. apply completed_same.
Qed.

(** C1 (fails on the code). [BrokerClient(10000)], buy 10 AAPL at 100, then
    sell 0 AAPL at 100: the sell returns 0, yet the log grows by an entry of
    quantity 0. *)
Theorem C1_zero_fill_sell_is_logged :
  exists c',
    SubmitOrder holding_AAPL (sell "AAPL" 0 100) = Some (0, c') /\
    GetTransactions holding_AAPL = [buy "AAPL" 10 100] /\
    GetTransactions c' = [buy "AAPL" 10 100; sell "AAPL" 0 100].
Proof. eexists. repeat split; vm_compute; reflexivity. Qed.

(** ** A sell that exhausts a position *)

(** C2, as the code has it: a sell of at least the held quantity fills the
    held quantity and removes the portfolio entry; the average-cost division
    of line 142 is evaluated before that, with the divisor [(double)0]. *)
Theorem C2_sell_all_erases_after_dividing
    (c : BrokerClient) (order : Order) (pos : SecurityPosition) :
  reachable c -> well_formed order -> kind order = Sell ->
  find (name (position order)) (portfolio_ c) = Some pos ->
  quantity pos <= quantity (position order) ->
  exists c',
    SubmitOrder c order = Some (quantity pos, c') /\
    find (name (position order)) (portfolio_ c') = None /\
    sell_divisor pos (completed order (quantity pos)) = 0%float.
Proof.
  intros Hr Hwf Hk Hfind Hle. pose proof (reachable_Inv c Hr) as HI.
  destruct (inv_entry c HI _ _ Hfind) as [_ Hpos]. unfold is_uint32 in Hpos.
  assert (Hmin : Z.min (quantity (position order)) (quantity pos) = quantity pos) by lia.
  destruct (HandleSell_defined c (completed order (quantity pos)) pos HI Hfind)
    as (queue' & value' & c' & Hsell & _ & _ & _ & _ & _ & Hport).
  { simpl. lia. }
  exists c'. split; [|split].
  - unfold SubmitOrder. now rewrite Hk, Hfind, Hmin, Hsell.
  - rewrite Hport. simpl. rewrite Z.sub_diag. simpl.
    apply find_erase_same, sorted_assign, (inv_portfolio_sorted c HI).
  - unfold sell_divisor, sub32. simpl. now rewrite Z.sub_diag.
Qed.

(** [holding_AAPL] is reached by one call. *)
Lemma reachable_holding_AAPL : reachable holding_AAPL.
Proof.
  apply (reachable_submit (new_BrokerClient 10000) _ (buy "AAPL" 10 100) 10).
  - apply reachable_new.
  - unfold well_formed, is_uint32, UINT32_MOD; simpl; lia.
  - vm_compute; reflexivity.
Defined.

(** C2 at [holding_AAPL], selling all 10 shares. *)
Lemma C2_sell_all_erases_after_dividing_witness :
  exists c',
    SubmitOrder holding_AAPL (sell "AAPL" 10 100) = Some (10, c') /\
    find "AAPL" (portfolio_ c') = None /\
    sell_divisor {| name := "AAPL"; quantity := 10; price := 100 |}
                 (completed (sell "AAPL" 10 100) 10) = 0%float.
Proof.
  apply (C2_sell_all_erases_after_dividing holding_AAPL (sell "AAPL" 10 100)
           {| name := "AAPL"; quantity := 10; price := 100 |}).
  - exact reachable_holding_AAPL.
  - unfold well_formed, is_uint32, UINT32_MOD; simpl; lia.
  - reflexivity.
  - vm_compute; reflexivity.
  - simpl; lia.
Defined.

(** C2 as stated fails: selling all 10 shares of [holding_AAPL] evaluates
    the division with a zero divisor ([0/0], a NaN) on the way to the
    removal. *)
Lemma C2_counterexample :
  find "AAPL" (portfolio_ holding_AAPL)
    = Some {| name := "AAPL"; quantity := 10; price := 100 |} /\
  (exists c', SubmitOrder holding_AAPL (sell "AAPL" 10 100) = Some (10, c')) /\
  sell_divisor {| name := "AAPL"; quantity := 10; price := 100 |}
               (completed (sell "AAPL" 10 100) 10) = 0%float /\
  price (reprice {| name := "AAPL"; quantity := 10; price := 100 |}
                 (completed (sell "AAPL" 10 100) 10) 1000) = nan.
Proof.
  split; [vm_compute; reflexivity|]. split; [eexists; vm_compute; reflexivity|].
  split; vm_compute; reflexivity.
Qed.

(** ** The cash balance *)

(** [testBuyPartial]: with 10000 in cash, a buy of 101 at 100 fills 100 and
    leaves exactly 0. *)
Lemma buy_101_at_100_fills_100 :
  exists c',
    SubmitOrder (new_BrokerClient 10000) (buy "AAPL" 101 100) = Some (100, c') /\
    GetCashBalance c' = 0%float /\
    GetPositions c' = [{| name := "AAPL"; quantity := 100; price := 100 |}].
Proof. eexists. repeat split; vm_compute; reflexivity. Qed.

(** C3 (fails on the code). [BrokerClient(0.35)], buy 35 shares at 0.01: the
    quotient [0.35 / 0.01] rounds up to 35.0 although 35 shares cost more
    than the balance, all 35 are bought and the balance becomes negative. *)
Theorem C3_buy_overdraws_cash :
  exists c',
    PrimFloat.leb 0 (GetCashBalance (new_BrokerClient 0.35)) = true /\
    SubmitOrder (new_BrokerClient 0.35) (buy "AAPL" 35 0.01) = Some (35, c') /\
    GetCashBalance c' = (-0x1p-54)%float /\
    PrimFloat.ltb (GetCashBalance c') 0 = true /\
    exact_compare 35 0.01 0.35 = Some Gt.
Proof. eexists. repeat split; vm_compute; reflexivity. Qed.

(** C5 (fails on the code). [BrokerClient(0.35)], buy 36 shares at 0.01:
    in exact arithmetic [34 * price < cash < 35 * price], so
    [floor(cash / price)] is 34; the code fills 35 and leaves a negative
    balance, outside [0, price). *)
Theorem C5_partial_buy_exceeds_floor :
  exists c',
    exact_compare 34 0.01 0.35 = Some Lt /\
    exact_compare 35 0.01 0.35 = Some Gt /\
    buy_quotient (new_BrokerClient 0.35) (buy "AAPL" 36 0.01) = 35%float /\
    SubmitOrder (new_BrokerClient 0.35) (buy "AAPL" 36 0.01) = Some (35, c') /\
    PrimFloat.ltb (GetCashBalance c') 0 = true.
Proof. eexists. repeat split; vm_compute; reflexivity. Qed.

(** ** Portfolio quantity against the FIFO queue *)

(** C4, as the code has it: in every reachable client and for every
    security, the portfolio quantity (0 if absent) is the sum of the lots of
    its FIFO queue modulo 2^32, and is that sum when it is below 2^32. *)
Theorem C4_held_is_queued_mod_2_32 (c : BrokerClient) (nm : string) :
  reachable c ->
  held c nm = queued c nm mod UINT32_MOD /\
  (queued c nm < UINT32_MOD -> held c nm = queued c nm).
Proof.
  intros Hr. pose proof (reachable_Inv c Hr) as HI.
  pose proof (inv_quantity c HI nm) as Hq. split; [exact Hq|].
  intros Hlt. rewrite Hq. apply Z.mod_small.
  split; [now apply queued_nonneg | exact Hlt].
Qed.

(** [twice_UINT32_MAX] is reached by two calls. *)
Lemma reachable_twice_UINT32_MAX : reachable twice_UINT32_MAX.
Proof.
  apply (reachable_submit
           (HandleBuy (new_BrokerClient 1e10) (buy "AAPL" 4294967295 1))
           _ (buy "AAPL" 4294967295 1) 4294967295).
  - apply (reachable_submit (new_BrokerClient 1e10) _ (buy "AAPL" 4294967295 1) 4294967295).
    + apply reachable_new.
    + unfold well_formed, is_uint32, UINT32_MOD; simpl; lia.
    + vm_compute; reflexivity.
  - unfold well_formed, is_uint32, UINT32_MOD; simpl; lia.
  - vm_compute; reflexivity.
Defined.

(** C4 at [twice_UINT32_MAX], where the sum has passed 2^32. *)
Lemma C4_held_is_queued_mod_2_32_witness :
  held twice_UINT32_MAX "AAPL" = queued twice_UINT32_MAX "AAPL" mod UINT32_MOD /\
  (queued twice_UINT32_MAX "AAPL" < UINT32_MOD ->
   held twice_UINT32_MAX "AAPL" = queued twice_UINT32_MAX "AAPL").
Proof.
  apply (C4_held_is_queued_mod_2_32 twice_UINT32_MAX "AAPL").
  exact reachable_twice_UINT32_MAX.
Defined.

(** C4 as stated fails: after two buys of 4294967295 shares at 1 with 1e10
    in cash, the portfolio quantity has wrapped to 4294967294 while the
    queue holds 8589934590 shares. *)
Lemma C4_counterexample :
  SubmitOrders (new_BrokerClient 1e10)
    [buy "AAPL" 4294967295 1; buy "AAPL" 4294967295 1] = Some twice_UINT32_MAX /\
  held twice_UINT32_MAX "AAPL" = 4294967294 /\
  queued twice_UINT32_MAX "AAPL" = 8589934590.
Proof. repeat split; vm_compute; reflexivity. Qed.

(** ** Sells beyond the holding *)



(** [testSellNone], and a sell of 25 of the 10 shares held. *)
Lemma sell_examples :
  SubmitOrder (new_BrokerClient 10000) (sell "AAPL" 10 100)
    = Some (0, new_BrokerClient 10000) /\
  exists c',
    SubmitOrder holding_AAPL (sell "AAPL" 25 100) = Some (10, c') /\
    GetTransactions c' = [buy "AAPL" 10 100; sell "AAPL" 10 100] /\
    GetPositions c' = [].
Proof.
  split; [vm_compute; reflexivity|]. eexists. repeat split; vm_compute; reflexivity.
Qed.

(** ** A buy at price zero *)

(** C9, as the code has it: a buy at price [+0] on a client whose cash
    balance is not negative is filled in full and leaves the balance as it
    was; the quotient [cashBalance / 0] is evaluated, to NaN or [+inf]. *)
Theorem C9_free_buy_fills_in_full (c : BrokerClient) (order : Order) :
  kind order = Buy -> well_formed order ->
  price (position order) = 0%float ->
  PrimFloat.leb 0 (GetCashBalance c) = true ->
  exists c',
    SubmitOrder c order = Some (quantity (position order), c') /\
    GetCashBalance c' = GetCashBalance c /\
    (buy_quotient c order = nan \/ buy_quotient c order = infinity).
Proof.
  intros Hk Hwf Hp Hcash.
  assert (Hlt : PrimFloat.ltb (buy_quotient c order)
                  (double_of_uint32 (quantity (position order))) = false).
  { unfold buy_quotient. rewrite Hp. now apply div_zero_not_below. }
  assert (Hfill : buy_fill c order = Some (quantity (position order))).
  { unfold buy_fill. rewrite (std_min_left _ _ Hlt).
    now apply uint32_of_double_of_uint32. }
  assert (Hq : buy_quotient c order = nan \/ buy_quotient c order = infinity).
  { unfold buy_quotient. rewrite Hp. now apply div_zero_class. }
  unfold SubmitOrder. rewrite Hk, Hfill.
  destruct (quantity (position order) =? 0) eqn:E.
  - apply Z.eqb_eq in E. rewrite E. exists c. auto.
  - eexists. split; [reflexivity|]. split; [|exact Hq].
    unfold GetCashBalance, HandleBuy; simpl. rewrite Hp.
    rewrite mul_zero_double_of_uint32 by assumption. apply sub_zero.
Qed.

(** C9 at [BrokerClient(10000)], for a buy of 7 shares at price 0. *)
Lemma C9_free_buy_fills_in_full_witness :
  exists c',
    SubmitOrder (new_BrokerClient 10000) (buy "AAPL" 7 0) = Some (7, c') /\
    GetCashBalance c' = GetCashBalance (new_BrokerClient 10000) /\
    (buy_quotient (new_BrokerClient 10000) (buy "AAPL" 7 0) = nan \/
     buy_quotient (new_BrokerClient 10000) (buy "AAPL" 7 0) = infinity).
Proof.
  apply (C9_free_buy_fills_in_full (new_BrokerClient 10000) (buy "AAPL" 7 0)).
  - reflexivity.
  - unfold well_formed, is_uint32, UINT32_MOD; simpl; lia.
  - reflexivity.
  - vm_compute; reflexivity.
Defined.

(** C9 as stated fails: on [BrokerClient(-1)] a buy of 1 share at price 0
    evaluates [-1 / 0 = -inf], whose conversion to [uint32_t] is undefined;
    the request is not filled in full regardless of the cash balance. The
    same happens from [BrokerClient(0.35)] once the buy of 35 shares at 0.01
    has left a negative balance, and with a positive balance at the price
    [-0.0], which also compares equal to 0. *)
Lemma C9_counterexample :
  buy_quotient (new_BrokerClient (-1)) (buy "AAPL" 1 0) = neg_infinity /\
  std_min (double_of_uint32 1) neg_infinity = neg_infinity /\
  uint32_of_double neg_infinity = None /\
  SubmitOrder (new_BrokerClient (-1)) (buy "AAPL" 1 0) = None /\
  SubmitOrders (new_BrokerClient 0.35) [buy "AAPL" 35 0.01; buy "AAPL" 1 0] = None /\
  PrimFloat.eqb (-0) 0 = true /\
  SubmitOrder (new_BrokerClient 10000) (buy "AAPL" 1 (-0)) = None.
Proof. repeat split; vm_compute; reflexivity. Qed.

(** ** [GetPositions] *)

(** C10. In a reachable client, [GetPositions] lists the portfolio in
    strictly ascending lexicographic order of the security names, each held
    security once: a position is listed exactly when the portfolio maps its
    name to it. *)
Theorem C10_positions_in_key_order (c : BrokerClient) :
  reachable c ->
  map name (GetPositions c) = keys (portfolio_ c) /\
  StronglySorted (fun a b => String.compare a b = Lt) (map name (GetPositions c)) /\
  NoDup (map name (GetPositions c)) /\
  (forall pos,
      In pos (GetPositions c) <->
      find (name pos) (portfolio_ c) = Some pos).
Proof.
  intros Hr. pose proof (reachable_Inv c Hr) as HI.
  pose proof (inv_portfolio_sorted c HI) as Hs.
  assert (Hentry : forall k pos, In (k, pos) (portfolio_ c) -> name pos = k).
  { intros k pos Hin. apply (In_find_Some _ _ _ Hs) in Hin.
    now destruct (inv_entry c HI _ _ Hin). }
  assert (Hnames : map name (GetPositions c) = keys (portfolio_ c)).
  { unfold GetPositions, values, keys. rewrite map_map.
    apply map_ext_in. intros [k pos] Hin. simpl. now apply Hentry. }
  split; [exact Hnames|]. rewrite Hnames.
  split; [exact Hs|]. split; [now apply sorted_NoDup_keys|].
  intros pos. unfold GetPositions, values. rewrite in_map_iff. split.
  - intros ([k p] & Heq & Hin). simpl in Heq. subst p.
    rewrite (Hentry _ _ Hin). now apply In_find_Some.
  - intros Hfind. exists (name pos, pos). split; [reflexivity|].
    now apply find_Some_In.
Qed.

(** [three_tickers] is reached by three calls. *)
Lemma reachable_three_tickers : reachable three_tickers.
Proof.
  apply (reachable_submit
           (HandleBuy (HandleBuy (new_BrokerClient 10000) (buy "MSFT" 1 300))
                      (buy "AAPL" 2 100))
           _ (buy "GOOG" 3 150) 3).
  - apply (reachable_submit
             (HandleBuy (new_BrokerClient 10000) (buy "MSFT" 1 300))
             _ (buy "AAPL" 2 100) 2).
    + apply (reachable_submit (new_BrokerClient 10000) _ (buy "MSFT" 1 300) 1).
      * apply reachable_new.
      * unfold well_formed, is_uint32, UINT32_MOD; simpl; lia.
      * vm_compute; reflexivity.
    + unfold well_formed, is_uint32, UINT32_MOD; simpl; lia.
    + vm_compute; reflexivity.
  - unfold well_formed, is_uint32, UINT32_MOD; simpl; lia.
  - vm_compute; reflexivity.
Defined.

(** C10 at [three_tickers]. *)
Lemma C10_positions_in_key_order_witness :
  map name (GetPositions three_tickers) = keys (portfolio_ three_tickers) /\
  StronglySorted (fun a b => String.compare a b = Lt)
                 (map name (GetPositions three_tickers)) /\
  NoDup (map name (GetPositions three_tickers)) /\
  (forall pos,
      In pos (GetPositions three_tickers) <->
      find (name pos) (portfolio_ three_tickers) = Some pos).
Proof.
  apply (C10_positions_in_key_order three_tickers).
  exact reachable_three_tickers.
Defined.

(** The positions of [three_tickers], bought as MSFT, AAPL, GOOG. *)
Lemma three_tickers_positions :
  GetPositions three_tickers =
    [ {| name := "AAPL"; quantity := 2; price := 100 |};
      {| name := "GOOG"; quantity := 3; price := 150 |};
      {| name := "MSFT"; quantity := 1; price := 300 |} ].
Proof. vm_compute; reflexivity. Qed.

(** ** Buy, then sell it all *)

(** The FIFO loop on a queue of one lot, sold whole. *)
Lemma drain_single_lot (lot : Order) (value : float) :
  0 < quantity (position lot) < UINT32_MOD ->
  drain [lot] (quantity (position lot)) 0 value
    = Some ([], quantity (position lot),
            (value + double_of_uint32 (quantity (position lot)) * price (position lot))%float).
Proof.
  intros Hq. simpl.
  destruct (0 <? quantity (position lot)) eqn:E0; [|apply Z.ltb_ge in E0; lia].
  rewrite sub32_small by lia. rewrite Z.sub_0_r.
  destruct (quantity (position lot) >=? quantity (position lot)) eqn:E1;
    [|rewrite Z.geb_leb in E1; apply Z.leb_gt in E1; lia].
  rewrite add32_small by lia. simpl. now rewrite Z.ltb_irrefl.
Qed.

(** C7, as the code has it: on a reachable client whose portfolio has no
    entry for a security and whose cash covers a buy of [q] shares at [p] in
    full, the buy followed by a sell of [q] at [p] leaves the security
    absent from the portfolio, and the cash balance is [(cash - p*q) + p*q]
    in [double] arithmetic. *)
Theorem C7_buy_then_sell_all (c : BrokerClient) (nm : string) (q : Z) (p : float) :
  reachable c ->
  find nm (portfolio_ c) = None ->
  0 < q < UINT32_MOD ->
  PrimFloat.ltb (GetCashBalance c / p) (double_of_uint32 q) = false ->
  exists c1 c2,
    SubmitOrder c (buy nm q p) = Some (q, c1) /\
    SubmitOrder c1 (sell nm q p) = Some (q, c2) /\
    find nm (portfolio_ c2) = None /\
    GetCashBalance c2 =
      (GetCashBalance c - p * double_of_uint32 q + p * double_of_uint32 q)%float.
Proof.
  intros Hr Hnone Hq Hlt. pose proof (reachable_Inv c Hr) as HI.
  destruct (buy_step c (buy nm q p) HI eq_refl Hq Hlt)
    as (c1 & Hs1 & HI1 & Hcash1 & Hpos1 & _).
  simpl in Hs1, Hcash1, Hpos1. rewrite Hnone in Hpos1.
  destruct (HandleSell_defined c1 (completed (sell nm q p) q)
              {| name := nm; quantity := q; price := p |} HI1 Hpos1)
    as (queue' & value' & c2 & Hsell & _ & _ & Hcash2 & _ & _ & Hport).
  { simpl. lia. }
  simpl in Hcash2, Hport.
  exists c1, c2. split; [exact Hs1|]. split; [|split].
  - unfold SubmitOrder. simpl. rewrite Hpos1. simpl. now rewrite Z.min_id, Hsell.
  - rewrite Hport, Z.sub_diag. simpl.
    apply find_erase_same, sorted_assign, (inv_portfolio_sorted c1 HI1).
  - unfold GetCashBalance. now rewrite Hcash2, Hcash1.
Qed.

(** C7 at [BrokerClient(10000)], for 10 shares at 100. *)
Lemma C7_buy_then_sell_all_witness :
  exists c1 c2,
    SubmitOrder (new_BrokerClient 10000) (buy "AAPL" 10 100) = Some (10, c1) /\
    SubmitOrder c1 (sell "AAPL" 10 100) = Some (10, c2) /\
    find "AAPL" (portfolio_ c2) = None /\
    GetCashBalance c2 =
      (GetCashBalance (new_BrokerClient 10000) - 100 * double_of_uint32 10
       + 100 * double_of_uint32 10)%float.
Proof.
  apply (C7_buy_then_sell_all (new_BrokerClient 10000) "AAPL" 10 100).
  - apply reachable_new.
  - reflexivity.
  - unfold UINT32_MOD; lia.
  - vm_compute; reflexivity.
Defined.

(** [testBuySellSimple]: there the balance is restored exactly. *)
Lemma buy_then_sell_10_at_100 :
  SubmitOrders (new_BrokerClient 10000) [buy "AAPL" 10 100; sell "AAPL" 10 100]
  = Some {| cashBalance_ := 10000;
            portfolio_ := [];
            transactions_ := [buy "AAPL" 10 100; sell "AAPL" 10 100];
            outstandingBuyOrderMap_ := [("AAPL"%string, [])] |}.
Proof. vm_compute; reflexivity. Qed.

(** C7 as stated fails: with 0.3 in cash, a buy of 1 share at 0.03 followed
    by a sell of 1 share at 0.03 leaves 0.30000000000000004, not 0.3. The
    cash covers the buy ([1 * 0.03 < 0.3], exactly and in [double]). *)
Lemma C7_counterexample :
  exists c1 c2,
    PrimFloat.ltb 0 0.03 = true /\
    PrimFloat.leb (0.03 * double_of_uint32 1) 0.3 = true /\
    exact_compare 1 0.03 0.3 = Some Lt /\
    SubmitOrder (new_BrokerClient 0.3) (buy "AAPL" 1 0.03) = Some (1, c1) /\
    SubmitOrder c1 (sell "AAPL" 1 0.03) = Some (1, c2) /\
    find "AAPL" (portfolio_ c2) = None /\
    GetCashBalance c2 = 0x1.3333333333334p-2%float /\
    PrimFloat.eqb (GetCashBalance c2) 0.3 = false.
Proof. do 2 eexists. repeat split; vm_compute; reflexivity. Qed.

(** ** The weighted-average cost basis *)

(** C6, as the code has it. On a reachable client whose portfolio has no
    entry for a security, whose FIFO queue holds no lot of it, and whose
    cash covers the three buys in full, the orders buy 10@10, buy 10@40,
    sell 5@60, sell 10@60, buy 5@45 are each filled in full and leave the
    position at (25, 20) after the two buys, then (30, 15), (40, 5) and
    (42.5, 10): the sells recompute the price from the cost of the lots
    consumed first-in first-out, not from the price 60 of the sells. *)
Theorem C6_weighted_average_example (c : BrokerClient) (nm : string) :
  reachable c ->
  find nm (portfolio_ c) = None -> queued c nm = 0 ->
  PrimFloat.ltb (GetCashBalance c / 10) 10 = false ->
  PrimFloat.ltb ((GetCashBalance c - 100) / 40) 10 = false ->
  PrimFloat.ltb ((GetCashBalance c - 100 - 400 + 300 + 600) / 45) 5 = false ->
  exists c1 c2 c3 c4 c5,
    SubmitOrder c (buy nm 10 10) = Some (10, c1) /\
    SubmitOrder c1 (buy nm 10 40) = Some (10, c2) /\
    find nm (portfolio_ c2) = Some {| name := nm; quantity := 20; price := 25 |} /\
    SubmitOrder c2 (sell nm 5 60) = Some (5, c3) /\
    find nm (portfolio_ c3) = Some {| name := nm; quantity := 15; price := 30 |} /\
    SubmitOrder c3 (sell nm 10 60) = Some (10, c4) /\
    find nm (portfolio_ c4) = Some {| name := nm; quantity := 5; price := 40 |} /\
    SubmitOrder c4 (buy nm 5 45) = Some (5, c5) /\
    find nm (portfolio_ c5) = Some {| name := nm; quantity := 10; price := 42.5 |}.
Proof.
  intros Hr Hnone Hq0 Hb1 Hb2 Hb3. pose proof (reachable_Inv c Hr) as HI.
  assert (Hq : forall n, 0 < n < 100 -> 0 < n < UINT32_MOD)
    by (unfold UINT32_MOD; lia).
  assert (Hwf : forall k n p, 0 < n < 100 ->
                well_formed {| kind := k; position := {| name := nm; quantity := n; price := p |} |})
    by (intros; unfold well_formed, is_uint32, UINT32_MOD; simpl; lia).
  (* buy 10 @ 10 *)
  destruct (buy_step c (buy nm 10 10) HI eq_refl (Hq 10 ltac:(lia)) Hb1)
    as (c1 & Hs1 & HI1 & Hcash1 & Hpos1 & Hqueue1).
  simpl in Hs1, Hcash1, Hpos1, Hqueue1.
  rewrite Hnone in Hpos1. rewrite (no_lots c nm HI Hq0) in Hqueue1. simpl in Hqueue1.
  (* buy 10 @ 40 *)
  destruct (buy_step c1 (buy nm 10 40) HI1 eq_refl (Hq 10 ltac:(lia)))
    as (c2 & Hs2 & HI2 & Hcash2 & Hpos2 & Hqueue2).
  { unfold buy_quotient, GetCashBalance. rewrite Hcash1. exact Hb2. }
  simpl in Hs2, Hcash2, Hpos2, Hqueue2.
  rewrite Hpos1 in Hpos2. rewrite Hqueue1 in Hqueue2. simpl in Hqueue2.
  rewrite Hcash1 in Hcash2.
  assert (Hp2 : find nm (portfolio_ c2)
                = Some {| name := nm; quantity := 20; price := 25 |}) by exact Hpos2.
  clear Hpos2.
  (* sell 5 @ 60 *)
  destruct (sell_step c2 (sell nm 5 60) _
              [buy nm 5 10; buy nm 10 40] 5 50%float HI2 eq_refl
              (Hwf Sell 5 60%float ltac:(lia)) Hp2)
    as (c3 & Hs3 & HI3 & Hcash3 & Hpos3 & Hqueue3).
  { simpl name. rewrite Hqueue2. vm_compute. reflexivity. }
  simpl in Hs3, Hcash3, Hqueue3. rewrite Hcash2 in Hcash3.
  assert (Hp3 : find nm (portfolio_ c3)
                = Some {| name := nm; quantity := 15; price := 30 |}) by exact Hpos3.
  clear Hpos3.
  (* sell 10 @ 60 *)
  destruct (sell_step c3 (sell nm 10 60) _
              [buy nm 5 40] 10 250%float HI3 eq_refl
              (Hwf Sell 10 60%float ltac:(lia)) Hp3)
    as (c4 & Hs4 & HI4 & Hcash4 & Hpos4 & Hqueue4).
  { simpl name. rewrite Hqueue3. vm_compute. reflexivity. }
  simpl in Hs4, Hcash4, Hqueue4. rewrite Hcash3 in Hcash4.
  assert (Hp4 : find nm (portfolio_ c4)
                = Some {| name := nm; quantity := 5; price := 40 |}) by exact Hpos4.
  clear Hpos4.
  (* buy 5 @ 45 *)
  destruct (buy_step c4 (buy nm 5 45) HI4 eq_refl (Hq 5 ltac:(lia)))
    as (c5 & Hs5 & _ & _ & Hpos5 & _).
  { unfold buy_quotient, GetCashBalance. rewrite Hcash4. exact Hb3. }
  simpl in Hs5, Hpos5. rewrite Hp4 in Hpos5.
  assert (Hp5 : find nm (portfolio_ c5)
                = Some {| name := nm; quantity := 10; price := 42.5 |}) by exact Hpos5.
  exists c1, c2, c3, c4, c5.
  repeat split; assumption.
Qed.

(** C6 at [BrokerClient(10000)] and AAPL, the setting of [testBuySellMultipleAvgPrice]. *)
Lemma C6_weighted_average_example_witness :
  exists c1 c2 c3 c4 c5,
    SubmitOrder (new_BrokerClient 10000) (buy "AAPL" 10 10) = Some (10, c1) /\
    SubmitOrder c1 (buy "AAPL" 10 40) = Some (10, c2) /\
    find "AAPL" (portfolio_ c2) = Some {| name := "AAPL"; quantity := 20; price := 25 |} /\
    SubmitOrder c2 (sell "AAPL" 5 60) = Some (5, c3) /\
    find "AAPL" (portfolio_ c3) = Some {| name := "AAPL"; quantity := 15; price := 30 |} /\
    SubmitOrder c3 (sell "AAPL" 10 60) = Some (10, c4) /\
    find "AAPL" (portfolio_ c4) = Some {| name := "AAPL"; quantity := 5; price := 40 |} /\
    SubmitOrder c4 (buy "AAPL" 5 45) = Some (5, c5) /\
    find "AAPL" (portfolio_ c5) = Some {| name := "AAPL"; quantity := 10; price := 42.5 |}.
Proof.
  apply (C6_weighted_average_example (new_BrokerClient 10000) "AAPL").
  - apply reachable_new.
  - reflexivity.
  - reflexivity.
  - vm_compute; reflexivity.
  - vm_compute; reflexivity.
  - vm_compute; reflexivity.
Defined.

(** C6 as stated fails on a client that holds none of the security but
    still has lots of it queued. [BrokerClient(1e10)] after two buys of
    2^31 shares at 1 (the portfolio quantity wraps to 0) and a sell of 1
    share (which erases the entry) has no AAPL position, 2^32 shares queued
    and cash to spare; there the sells consume the old lots at price 1 and
    the five orders leave (25, 20), (33, 15), (97, 5) and (71, 10). *)
Lemma C6_counterexample :
  exists c0 c2 c3 c4 c5,
    SubmitOrders (new_BrokerClient 1e10)
      [buy "AAPL" 2147483648 1; buy "AAPL" 2147483648 1; sell "AAPL" 1 1] = Some c0 /\
    find "AAPL" (portfolio_ c0) = None /\
    GetPositions c0 = [] /\
    queued c0 "AAPL" = 4294967296 /\
    GetCashBalance c0 = 5705032704%float /\
    SubmitOrders c0 [buy "AAPL" 10 10; buy "AAPL" 10 40] = Some c2 /\
    GetPositions c2 = [{| name := "AAPL"; quantity := 20; price := 25 |}] /\
    SubmitOrder c2 (sell "AAPL" 5 60) = Some (5, c3) /\
    GetPositions c3 = [{| name := "AAPL"; quantity := 15; price := 33 |}] /\
    SubmitOrder c3 (sell "AAPL" 10 60) = Some (10, c4) /\
    GetPositions c4 = [{| name := "AAPL"; quantity := 5; price := 97 |}] /\
    SubmitOrder c4 (buy "AAPL" 5 45) = Some (5, c5) /\
    GetPositions c5 = [{| name := "AAPL"; quantity := 10; price := 71 |}].
Proof.
  do 5 eexists.
  do 12 (split; [vm_compute; reflexivity|]).
  vm_compute; reflexivity.
Qed.

(** [testBuySellMultipleAvgPrice], by evaluation: what [GetPositions]
    returns after each of the five orders. *)
Lemma weighted_average_positions :
  option_map GetPositions
    (SubmitOrders (new_BrokerClient 10000) [buy "AAPL" 10 10; buy "AAPL" 10 40])
    = Some [{| name := "AAPL"; quantity := 20; price := 25 |}] /\
  option_map GetPositions
    (SubmitOrders (new_BrokerClient 10000)
       [buy "AAPL" 10 10; buy "AAPL" 10 40; sell "AAPL" 5 60])
    = Some [{| name := "AAPL"; quantity := 15; price := 30 |}] /\
  option_map GetPositions
    (SubmitOrders (new_BrokerClient 10000)
       [buy "AAPL" 10 10; buy "AAPL" 10 40; sell "AAPL" 5 60; sell "AAPL" 10 60])
    = Some [{| name := "AAPL"; quantity := 5; price := 40 |}] /\
  option_map GetPositions
    (SubmitOrders (new_BrokerClient 10000)
       [buy "AAPL" 10 10; buy "AAPL" 10 40; sell "AAPL" 5 60; sell "AAPL" 10 60;
        buy "AAPL" 5 45])
    = Some [{| name := "AAPL"; quantity := 10; price := 42.5 |}].
Proof. repeat split; vm_compute; reflexivity. Qed.

(** ** Defined behaviour and the shape of the log *)

(** In a reachable client every sell has defined behaviour: the FIFO loop
    never reads the front of an empty queue, and the call returns the
    smaller of the requested and the held quantity (0 if none is held). *)
Theorem sell_is_defined (c : BrokerClient) (order : Order) :
  reachable c -> well_formed order -> kind order = Sell ->
  exists c',
    SubmitOrder c order
      = Some (Z.min (quantity (position order)) (held c (name (position order))), c').
Proof.
  intros Hr Hwf Hk. pose proof (reachable_Inv c Hr) as HI. unfold held.
  destruct (find (name (position order)) (portfolio_ c)) as [pos|] eqn:Hfind.
  - destruct (SubmitOrder_sell_held c order pos HI Hwf Hk Hfind) as (c' & Hs & _).
    now exists c'.
  - exists c. unfold SubmitOrder. rewrite Hk, Hfind.
    unfold well_formed, is_uint32 in Hwf. f_equal. f_equal. lia.
Qed.

(** [sell_is_defined] at [holding_AAPL], for a sell of 4 shares. *)
Lemma sell_is_defined_witness :
  exists c',
    SubmitOrder holding_AAPL (sell "AAPL" 4 120)
      = Some (Z.min 4 (held holding_AAPL "AAPL"), c').
Proof.
  apply (sell_is_defined holding_AAPL (sell "AAPL" 4 120)).
  - exact reachable_holding_AAPL.
  - unfold well_formed, is_uint32, UINT32_MOD; simpl; lia.
  - reflexivity.
Defined.

(** A call either leaves the client as it was and returns 0, or appends to
    the log exactly one entry: the order with the returned quantity. On the
    buy path the appended quantity is positive. *)
Theorem log_grows_by_the_fill (c c' : BrokerClient) (order : Order) (n : Z) :
  SubmitOrder c order = Some (n, c') ->
  (n = 0 /\ c' = c) \/
  (GetTransactions c' = GetTransactions c ++ [completed order n] /\
   (kind order = Buy -> 0 < n < UINT32_MOD)).
Proof.
  unfold SubmitOrder. destruct (kind order) eqn:Hk.
  - destruct (buy_fill c order) as [q|] eqn:Hfill; [|discriminate].
    pose proof (buy_fill_range _ _ _ Hfill) as Hq. unfold is_uint32 in Hq.
    destruct (q =? 0) eqn:E; intros [= <- <-].
    + now left.
    + apply Z.eqb_neq in E. right. split; [reflexivity|]. intros _. lia.
  - destruct (find (name (position order)) (portfolio_ c)) as [pos|].
    + destruct (HandleSell c _) as [c0|] eqn:Hsell; [|discriminate].
      intros [= <- <-]. right. split; [|discriminate].
      unfold HandleSell in Hsell.
      destruct (drain _ _ _ _) as [[[queue' r] v]|]; [|discriminate].
      injection Hsell as <-. reflexivity.
    + intros [= <- <-]. now left.
Qed.

(** [log_grows_by_the_fill] at the partial buy of [testBuyPartial]. *)
Lemma log_grows_by_the_fill_witness :
  (100 = 0 /\ HandleBuy (new_BrokerClient 10000) (buy "AAPL" 100 100)
              = new_BrokerClient 10000) \/
  (GetTransactions (HandleBuy (new_BrokerClient 10000) (buy "AAPL" 100 100))
     = GetTransactions (new_BrokerClient 10000)
         ++ [completed (buy "AAPL" 101 100) 100] /\
   (kind (buy "AAPL" 101 100) = Buy -> 0 < 100 < UINT32_MOD)).
Proof.
  apply (log_grows_by_the_fill (new_BrokerClient 10000) _ (buy "AAPL" 101 100) 100).
  vm_compute; reflexivity.
Defined.

End Properties.

(* ================================================================== *)
(** * The quantity a buy fills *)

Module FillFacts.
Import StdMap StdMapFacts DoubleFacts InvariantFacts StepFacts.

Lemma digits2_pos_upper (p : positive) :
  Z.pos p < 2 ^ Z.pos (digits2_pos p).
Proof.
  induction p as [p IH|p IH|]; simpl digits2_pos.
  - rewrite Pos2Z.inj_succ, Z.pow_succ_r by lia. lia.
  - rewrite Pos2Z.inj_succ, Z.pow_succ_r by lia. lia.
  - simpl. lia.
Qed.

(** The mantissa of a valid binary64 has at most 53 bits. *)
Lemma valid_mantissa_bound (s : bool) (m : positive) (e : Z) :
  valid_binary (S754_finite s m e) = true -> Z.pos m < 2 ^ 53.
Proof.
  unfold SpecFloat.valid_binary, bounded, canonical_mantissa.
  intros H. apply andb_prop in H as [H _]. apply Z.eqb_eq in H.
  unfold fexp, SpecFloat.emin, prec, emax in H.
  pose proof (digits2_pos_upper m) as Hu.
  assert (Z.pos (digits2_pos m) <= 53) by lia.
  assert (2 ^ Z.pos (digits2_pos m) <= 2 ^ 53) by (apply Z.pow_le_mono_r; lia).
  lia.
Qed.

Lemma trunc_finite_nonneg (m : positive) (e : Z) : 0 <= trunc_finite false m e.
Proof.
  unfold trunc_finite. destruct (0 <=? e) eqn:E.
  - apply Z.leb_le in E. apply Z.mul_nonneg_nonneg; [lia|]. now apply Z.pow_nonneg.
  - apply Z.leb_gt in E. apply Z.div_pos; [lia|]. apply Z.pow_pos_nonneg; lia.
Qed.

Lemma trunc_finite_neg_nonpos (m : positive) (e : Z) : trunc_finite true m e <= 0.
Proof.
  pose proof (trunc_finite_nonneg m e) as H. unfold trunc_finite in *.
  simpl in *. lia.
Qed.

(** A non-negative finite [double] below [(double)q] truncates to at most
    [q]. *)
Lemma trunc_below (m : positive) (e : Z) (q : Z) :
  is_uint32 q ->
  valid_binary (S754_finite false m e) = true ->
  SFltb (S754_finite false m e) (Prim2SF (double_of_uint32 q)) = true ->
  trunc_finite false m e <= q.
Proof.
  intros Hq Hv Hlt. pose proof (valid_mantissa_bound _ _ _ Hv) as Hm.
  destruct q as [|p|p]; [discriminate Hlt| |destruct Hq; lia].
  destruct Hq as [_ Hp].
  rewrite Prim2SF_double_of_uint32_pos in Hlt by assumption.
  pose proof (digits2_pos_uint32 p Hp) as Hd.
  pose proof (digits2_pos_lower p) as Hl.
  set (k := Z.to_pos (53 - Z.pos (digits2_pos p))) in *.
  assert (Hk : Z.pos k = 53 - Z.pos (digits2_pos p)) by (unfold k; lia).
  clearbody k.
  unfold SFltb, SFcompare in Hlt.
  assert (Hpow : forall n, 0 <= n -> 0 < 2 ^ n) by (intros; apply Z.pow_pos_nonneg; lia).
  destruct (Z.compare_spec e (Z.neg k)) as [He|He|He]; try discriminate Hlt.
  - (* same exponent: the mantissa is smaller *)
    destruct (Pos.compare_cont Eq m (Pos.iter xO p k)) eqn:Hc; try discriminate Hlt.
    change (Pos.compare_cont Eq m (Pos.iter xO p k)) with (Pos.compare m (Pos.iter xO p k)) in Hc.
    apply Pos.compare_lt_iff in Hc.
    assert (Hc' : Z.pos m < Z.pos p * 2 ^ Z.pos k).
    { rewrite <- iter_xO_value. now apply Pos2Z.pos_lt_pos. }
    unfold trunc_finite. subst e. simpl Z.leb. cbv iota. simpl Z.opp.
    apply Z.div_le_upper_bound; [apply Hpow; lia|]. lia.
  - (* smaller exponent *)
    unfold trunc_finite.
    destruct (0 <=? e) eqn:E; [apply Z.leb_le in E; lia|].
    apply Z.div_le_upper_bound; [apply Hpow; lia|].
    assert (H1 : 2 ^ 53 = 2 ^ (Z.pos (digits2_pos p) - 1) * 2 ^ (Z.pos k + 1)).
    { rewrite <- Z.pow_add_r by lia. f_equal. lia. }
    assert (H2 : 2 ^ (Z.pos k + 1) <= 2 ^ (- e)) by (apply Z.pow_le_mono_r; lia).
    assert (H3 : 0 < 2 ^ (Z.pos (digits2_pos p) - 1)) by (apply Hpow; lia).
    assert (H4 : 0 < 2 ^ (Z.pos k + 1)) by (apply Hpow; lia).
    nia.
Qed.

(** [(uint32_t)std::min((double)q, x)], when defined, is at most [q]. *)
Lemma uint32_of_min_le (q : Z) (x : float) (n : Z) :
  is_uint32 q ->
  uint32_of_double (std_min (double_of_uint32 q) x) = Some n ->
  0 <= n <= q.
Proof.
  intros Hq. unfold std_min.
  destruct (PrimFloat.ltb x (double_of_uint32 q)) eqn:Hlt.
  - intros Hn. pose proof (uint32_of_double_range _ _ Hn) as [Hn0 _].
    split; [exact Hn0|].
    rewrite FloatAxioms.ltb_spec in Hlt.
    pose proof (Prim2SF_valid x) as Hv.
    unfold uint32_of_double in Hn.
    destruct (Prim2SF x) as [s|s| |s m e]; try discriminate Hn.
    + injection Hn as <-. destruct Hq; assumption.
    + destruct ((0 <=? trunc_finite s m e) && (trunc_finite s m e <? UINT32_MOD));
        [|discriminate Hn].
      injection Hn as <-. destruct s.
      * pose proof (trunc_finite_neg_nonpos m e). destruct Hq. lia.
      * now apply trunc_below.
  - rewrite uint32_of_double_of_uint32 by assumption.
    intros [= <-]. destruct Hq. lia.
Qed.

Lemma binary_round_aux_sign (s : bool) (m e : Z) (l : location) :
  match binary_round_aux prec emax s m e l with
  | S754_zero s' | S754_infinity s' | S754_finite s' _ _ => s' = s
  | S754_nan => True
  end.
Proof.
  unfold binary_round_aux.
  destruct (shr_fexp prec emax m e l) as [mrs' e'].
  destruct (shr_fexp prec emax _ e' loc_Exact) as [mrs'' e''].
  destruct (shr_m mrs''); [reflexivity| |exact I].
  destruct (e'' <=? emax - prec); reflexivity.
Qed.

(** A non-negative [double] divided by a positive one is never negative:
    the quotient is a zero, NaN, or carries the sign [+]. *)
Lemma div_nonneg_sign (x y : float) :
  PrimFloat.leb 0 x = true -> PrimFloat.ltb 0 y = true ->
  match Prim2SF (x / y) with
  | S754_infinity s | S754_finite s _ _ => s = false
  | S754_zero _ | S754_nan => True
  end.
Proof.
  intros Hx Hy. rewrite FloatAxioms.leb_spec in Hx. rewrite FloatAxioms.ltb_spec in Hy.
  rewrite FloatAxioms.div_spec.
  change (Prim2SF 0) with (S754_zero false) in *.
  destruct (Prim2SF x) as [sx|sx| |sx mx ex]; try discriminate Hx;
    destruct (Prim2SF y) as [sy|sy| |sy my ey]; try discriminate Hy;
    try (destruct sx; try discriminate Hx); try (destruct sy; try discriminate Hy);
    try exact I; try reflexivity.
  unfold SF64div, SFdiv.
  destruct (SFdiv_core_binary prec emax (Z.pos mx) ex (Z.pos my) ey) as [[mz ez] lz].
  pose proof (binary_round_aux_sign (xorb false false) mz ez lz) as Hs.
  destruct (binary_round_aux prec emax (xorb false false) mz ez lz); auto.
Qed.

(** With a non-negative balance and a positive price the conversion of
    line 22 is defined. *)
Lemma buy_fill_defined (c : BrokerClient) (order : Order) :
  well_formed order ->
  PrimFloat.leb 0 (GetCashBalance c) = true ->
  PrimFloat.ltb 0 (price (position order)) = true ->
  exists n, buy_fill c order = Some n.
Proof.
  intros Hwf Hc Hp. unfold buy_fill, std_min.
  destruct (PrimFloat.ltb (buy_quotient c order) _) eqn:Hlt.
  - pose proof (div_nonneg_sign _ _ Hc Hp) as Hs. fold (buy_quotient c order) in Hs.
    pose proof (Prim2SF_valid (buy_quotient c order)) as Hv.
    rewrite FloatAxioms.ltb_spec in Hlt.
    unfold uint32_of_double.
    destruct (Prim2SF (buy_quotient c order)) as [s|s| |s m e] eqn:E.
    + eauto.
    + subst s. unfold well_formed in Hwf.
      destruct (double_of_uint32_class _ Hwf) as [H|(m' & e' & H)];
        rewrite H in Hlt; discriminate Hlt.
    + discriminate Hlt.
    + subst s. pose proof (trunc_below m e _ Hwf Hv Hlt) as Hle.
      pose proof (trunc_finite_nonneg m e) as H0.
      destruct Hwf as [_ Hq].
      assert (H1 : (0 <=? trunc_finite false m e) = true) by (apply Z.leb_le; lia).
      assert (H2 : (trunc_finite false m e <? UINT32_MOD) = true) by (apply Z.ltb_lt; lia).
      rewrite H1, H2. simpl. eauto.
  - rewrite uint32_of_double_of_uint32 by assumption. eauto.
Qed.

End FillFacts.

(* ================================================================== *)
(** * What one call, and a sequence of calls, does to the client *)

Module Behaviour.
Import StdMap StdMapFacts DoubleFacts InvariantFacts StepFacts FillFacts.

Lemma SubmitOrder_path (c c' : BrokerClient) (order : Order) (n : Z) :
  SubmitOrder c order = Some (n, c') -> submit_path c order n c'.
Proof.
  unfold SubmitOrder. destruct (kind order) eqn:Hk.
  - destruct (buy_fill c order) as [q|] eqn:Hfill; [|discriminate].
    pose proof (buy_fill_range _ _ _ Hfill) as Hq. unfold is_uint32 in Hq.
    destruct (q =? 0) eqn:E; intros [= <- <-].
    + apply Z.eqb_eq in E. subst q. now apply path_buy_nothing.
    + apply Z.eqb_neq in E. apply path_buy; auto. lia.
  - destruct (find (name (position order)) (portfolio_ c)) as [pos|] eqn:Hfind.
    + destruct (HandleSell c _) as [c0|] eqn:Hsell; [|discriminate].
      intros [= <- <-]. now apply (path_sell _ _ _ _ pos).
    + intros [= <- <-]. now apply path_sell_absent.
Qed.

(** The client [HandleSell] returns, read off its body. *)
Lemma HandleSell_result (c c' : BrokerClient) (order : Order) :
  HandleSell c order = Some c' ->
  exists queue' removed value',
    drain (subscript [] (name (position order)) (outstandingBuyOrderMap_ c))
          (quantity (position order)) 0 0%float = Some (queue', removed, value') /\
    c' = {| cashBalance_ :=
              (cashBalance_ c
               + price (position order)
                 * double_of_uint32 (quantity (position order)))%float;
            portfolio_ :=
              (let pos' := reprice (subscript default_position (name (position order))
                                      (portfolio_ c)) order value' in
               let portfolio1 := assign (name (position order)) pos' (portfolio_ c) in
               if quantity pos' =? 0
               then erase (name (position order)) portfolio1
               else portfolio1);
            transactions_ := transactions_ c ++ [order];
            outstandingBuyOrderMap_ :=
              assign (name (position order)) queue' (outstandingBuyOrderMap_ c) |}.
Proof.
  unfold HandleSell.
  destruct (drain _ _ _ _) as [[[queue' removed] value']|]; [|discriminate].
  intros [= <-]. now exists queue', removed, value'.
Qed.

(** The FIFO loop pops lots from the front only, and changes at most the
    lot it stops at. *)
Lemma drain_fifo (queue : list Order) :
  forall (want removed : Z) (value : float) queue' removed' value',
    Forall lot_ok queue ->
    0 <= removed <= want -> want < UINT32_MOD ->
    drain queue want removed value = Some (queue', removed', value') ->
    fifo_remainder queue queue'.
Proof.
  induction queue as [|o queue IH];
    intros want removed value queue' removed' value' Hq Hr Hw Hd.
  - simpl in Hd. destruct (removed <? want); [discriminate|].
    injection Hd as <- _ _. exists 0%nat. now left.
  - apply Forall_cons_iff in Hq as [Ho Hq]. unfold lot_ok in Ho.
    simpl in Hd. destruct (removed <? want) eqn:Elt.
    + apply Z.ltb_lt in Elt. rewrite sub32_small in Hd by lia.
      destruct (want - removed >=? quantity (position o)) eqn:Ege.
      * apply Z.geb_le in Ege. rewrite add32_small in Hd by lia.
        assert (Hr' : 0 <= removed + quantity (position o) <= want) by lia.
        destruct (IH _ _ _ _ _ _ Hq Hr' Hw Hd) as [k Hk].
        exists (S k). exact Hk.
      * rewrite Z.geb_leb in Ege. apply Z.leb_gt in Ege.
        rewrite sub32_small in Hd by lia.
        injection Hd as <- _ _. exists 0%nat. right.
        exists o, queue, (quantity (position o) - (want - removed)).
        repeat split; lia.
    + injection Hd as <- _ _. exists 0%nat. now left.
Qed.

(** ** The returned quantity *)

(** [SubmitOrder] never transacts more than the order asks for: on a
    reachable client the returned quantity lies between 0 and the requested
    quantity, on the buy path (whatever the cash balance and the price) as
    on the sell path. *)
Theorem fill_within_request (c c' : BrokerClient) (order : Order) (n : Z) :
  reachable c -> well_formed order ->
  SubmitOrder c order = Some (n, c') ->
  0 <= n <= quantity (position order).
Proof.
  intros Hr Hwf Hs. pose proof (reachable_Inv c Hr) as HI.
  pose proof Hwf as [Hq0 Hq1].
  destruct (SubmitOrder_path _ _ _ _ Hs) as [_ _ -> _|_ Hfill _ _|_ _ -> _|pos _ Hfind -> _].
  - lia.
  - exact (uint32_of_min_le _ _ _ Hwf Hfill).
  - lia.
  - destruct (inv_entry c HI _ _ Hfind) as [_ [Hp0 _]]. lia.
Qed.

(** [fill_within_request] at the partial buy of [testBuyPartial]. *)
Lemma fill_within_request_witness : 0 <= 100 <= 101.
Proof.
  apply (fill_within_request (new_BrokerClient 10000)
           (HandleBuy (new_BrokerClient 10000) (buy "AAPL" 100 100))
           (buy "AAPL" 101 100) 100).
  - apply reachable_new.
  - unfold well_formed, is_uint32, UINT32_MOD; simpl; lia.
  - vm_compute; reflexivity.
Defined.

(** A buy at a positive price on a client whose cash balance is not
    negative has defined behaviour: the [double] to [uint32_t] conversion of
    line 22 is in range, and the call returns at most the requested
    quantity. *)
Theorem buy_is_defined (c : BrokerClient) (order : Order) :
  kind order = Buy -> well_formed order ->
  PrimFloat.leb 0 (GetCashBalance c) = true ->
  PrimFloat.ltb 0 (price (position order)) = true ->
  exists n c',
    SubmitOrder c order = Some (n, c') /\ 0 <= n <= quantity (position order).
Proof.
  intros Hk Hwf Hc Hp.
  destruct (buy_fill_defined c order Hwf Hc Hp) as [n Hfill].
  pose proof (uint32_of_min_le _ _ _ Hwf Hfill) as Hn.
  unfold SubmitOrder. rewrite Hk, Hfill.
  destruct (n =? 0) eqn:E.
  - apply Z.eqb_eq in E. subst n. eauto.
  - eauto.
Qed.

(** [buy_is_defined] at a buy that the balance covers only in part. *)
Lemma buy_is_defined_witness :
  exists n c',
    SubmitOrder (new_BrokerClient 0.35) (buy "AAPL" 1000 0.01) = Some (n, c') /\
    0 <= n <= 1000.
Proof.
  apply (buy_is_defined (new_BrokerClient 0.35) (buy "AAPL" 1000 0.01)).
  - reflexivity.
  - unfold well_formed, is_uint32, UINT32_MOD; simpl; lia.
  - vm_compute; reflexivity.
  - vm_compute; reflexivity.
Defined.

(** A buy whose quotient [cashBalance / price] is not below the requested
    quantity [q > 0] is filled in full: the call returns [q], takes
    [price * q] off the cash balance, logs the order as submitted and
    appends it to the FIFO queue of its security. *)
Theorem covered_buy_fills_request (c : BrokerClient) (order : Order) :
  reachable c -> kind order = Buy ->
  0 < quantity (position order) < UINT32_MOD ->
  PrimFloat.ltb (GetCashBalance c / price (position order))
                (double_of_uint32 (quantity (position order))) = false ->
  exists c',
    SubmitOrder c order = Some (quantity (position order), c') /\
    GetCashBalance c' =
      (GetCashBalance c
       - price (position order) * double_of_uint32 (quantity (position order)))%float /\
    GetTransactions c' = GetTransactions c ++ [order] /\
    subscript [] (name (position order)) (outstandingBuyOrderMap_ c') =
      subscript [] (name (position order)) (outstandingBuyOrderMap_ c) ++ [order].
Proof.
  intros Hr Hk Hq Hlt. pose proof (reachable_Inv c Hr) as HI.
  destruct (buy_step c order HI Hk Hq Hlt) as (c' & Hs & _ & Hcash & _ & Hqueue).
  exists c'. split; [exact Hs|]. split; [exact Hcash|]. split; [|exact Hqueue].
  destruct (SubmitOrder_path _ _ _ _ Hs) as [_ _ H0 _|_ _ _ ->|Hk' _ _ _|pos Hk' _ _ _];
    try congruence; try lia.
  unfold GetTransactions; simpl. now rewrite completed_same.
Qed.

(** [covered_buy_fills_request] at the buy of [testBuySimple]. *)
Lemma covered_buy_fills_request_witness :
  exists c',
    SubmitOrder (new_BrokerClient 10000) (buy "AAPL" 10 100) = Some (10, c') /\
    GetCashBalance c' = (10000 - 100 * double_of_uint32 10)%float /\
    GetTransactions c' = [] ++ [buy "AAPL" 10 100] /\
    subscript [] "AAPL" (outstandingBuyOrderMap_ c') = [] ++ [buy "AAPL" 10 100].
Proof.
  apply (covered_buy_fills_request (new_BrokerClient 10000) (buy "AAPL" 10 100)).
  - apply reachable_new.
  - reflexivity.
  - simpl; unfold UINT32_MOD; lia.
  - vm_compute; reflexivity.
Defined.

(** ** One security at a time *)

(** What a sell of a held security leaves in the two maps, for a client
    satisfying the invariant. *)
Lemma sell_maps (c c' : BrokerClient) (order : Order) (pos : SecurityPosition) :
  Inv c ->
  find (name (position order)) (portfolio_ c) = Some pos ->
  0 <= quantity (position order) <= quantity pos ->
  HandleSell c order = Some c' ->
  exists queue' removed value',
    drain (subscript [] (name (position order)) (outstandingBuyOrderMap_ c))
          (quantity (position order)) 0 0%float = Some (queue', removed, value') /\
    queue_total queue' =
      queued c (name (position order)) - quantity (position order) /\
    find (name (position order)) (portfolio_ c') =
      (if quantity pos - quantity (position order) =? 0 then None
       else Some (reprice pos order value')) /\
    find (name (position order)) (outstandingBuyOrderMap_ c') = Some queue' /\
    (forall k, name (position order) <> k ->
       find k (portfolio_ c') = find k (portfolio_ c) /\
       find k (outstandingBuyOrderMap_ c') = find k (outstandingBuyOrderMap_ c)).
Proof.
  intros HI Hfind Hq Hsell.
  destruct (HandleSell_defined c order pos HI Hfind Hq)
    as (queue' & value' & c0 & Hsell' & Ht & _ & _ & _ & Hmap & Hport).
  rewrite Hsell in Hsell'. injection Hsell' as <-.
  destruct (HandleSell_result _ _ _ Hsell) as (queue1 & removed & value1 & Hd & Hc').
  assert (Hmap1 : outstandingBuyOrderMap_ c'
                  = assign (name (position order)) queue1 (outstandingBuyOrderMap_ c))
    by now rewrite Hc'.
  assert (Hport1 : portfolio_ c' =
            (let pos' := reprice (subscript default_position (name (position order))
                                    (portfolio_ c)) order value1 in
             let portfolio1 := assign (name (position order)) pos' (portfolio_ c) in
             if quantity pos' =? 0
             then erase (name (position order)) portfolio1
             else portfolio1))
    by now rewrite Hc'.
  assert (Hsub : subscript default_position (name (position order)) (portfolio_ c) = pos).
  { unfold subscript. now rewrite Hfind. }
  rewrite Hsub in Hport1. cbv zeta in Hport1.
  destruct (inv_entry c HI _ _ Hfind) as [_ Hpos]. unfold is_uint32 in Hpos.
  assert (Hqty : quantity (reprice pos order value1)
                 = quantity pos - quantity (position order)).
  { unfold reprice; simpl. apply sub32_small. lia. }
  rewrite Hqty in Hport1.
  assert (Hq1 : queue1 = queue').
  { assert (Hf : find (name (position order)) (outstandingBuyOrderMap_ c') = Some queue1)
      by (rewrite Hmap1; apply find_assign_same).
    rewrite Hmap, find_assign_same in Hf. congruence. }
  subst queue1.
  pose proof (sorted_assign (name (position order)) (reprice pos order value1)
                (portfolio_ c) (inv_portfolio_sorted c HI)) as Hsa.
  exists queue', removed, value1. split; [exact Hd|]. split; [exact Ht|]. split.
  { rewrite Hport1. destruct (_ =? 0).
    - now apply find_erase_same.
    - apply find_assign_same. }
  split.
  { rewrite Hmap1. apply find_assign_same. }
  intros k Hk. split.
  - rewrite Hport1. destruct (_ =? 0).
    + rewrite find_erase_other by assumption. now apply find_assign_other.
    + now apply find_assign_other.
  - rewrite Hmap1. now apply find_assign_other.
Qed.

(** A call touches one security only: for every other name the portfolio
    entry and the FIFO queue are after the call what they were before. *)
Theorem other_securities_untouched
    (c c' : BrokerClient) (order : Order) (n : Z) (k : string) :
  reachable c -> well_formed order ->
  SubmitOrder c order = Some (n, c') ->
  name (position order) <> k ->
  find k (portfolio_ c') = find k (portfolio_ c) /\
  find k (outstandingBuyOrderMap_ c') = find k (outstandingBuyOrderMap_ c).
Proof.
  intros Hr Hwf Hs Hk. pose proof (reachable_Inv c Hr) as HI.
  pose proof Hwf as [Hq0 Hq1].
  destruct (SubmitOrder_path _ _ _ _ Hs) as [_ _ _ ->|_ _ _ ->|_ _ _ ->|pos _ Hfind Hn Hsell].
  - now split.
  - split.
    + now apply (HandleBuy_portfolio_other c (completed order n)).
    + now apply (HandleBuy_queue_other c (completed order n)).
  - now split.
  - destruct (inv_entry c HI _ _ Hfind) as [_ [Hp0 _]].
    destruct (sell_maps c c' (completed order n) pos HI Hfind) as (_ & _ & _ & _ & _ & _ & _ & Hother);
      [simpl; lia|exact Hsell|].
    now apply Hother.
Qed.

(** [other_securities_untouched] at [three_tickers]: selling one GOOG share
    leaves AAPL alone. *)
Lemma other_securities_untouched_witness :
  exists c',
    SubmitOrder three_tickers (sell "GOOG" 1 150) = Some (1, c') /\
    find "AAPL" (portfolio_ c') = find "AAPL" (portfolio_ three_tickers) /\
    find "AAPL" (outstandingBuyOrderMap_ c')
      = find "AAPL" (outstandingBuyOrderMap_ three_tickers).
Proof.
  eexists. split; [vm_compute; reflexivity|].
  apply (other_securities_untouched three_tickers _ (sell "GOOG" 1 150) 1 "AAPL").
  - exact Properties.reachable_three_tickers.
  - unfold well_formed, is_uint32, UINT32_MOD; simpl; lia.
  - vm_compute; reflexivity.
  - discriminate.
Defined.

(** The held quantity of the order's security moves by the returned
    quantity: a buy adds it modulo 2^32 ([uint32_t] addition), a sell
    subtracts it, without wrap-around. *)
Theorem held_moves_by_the_fill (c c' : BrokerClient) (order : Order) (n : Z) :
  reachable c -> well_formed order ->
  SubmitOrder c order = Some (n, c') ->
  held c' (name (position order)) =
    match kind order with
    | Buy => (held c (name (position order)) + n) mod UINT32_MOD
    | Sell => held c (name (position order)) - n
    end.
Proof.
  intros Hr Hwf Hs. pose proof (reachable_Inv c Hr) as HI.
  pose proof Hwf as [Hq0 Hq1].
  destruct (SubmitOrder_path _ _ _ _ Hs)
    as [Hk _ -> ->|Hk _ Hn ->|Hk Hfind -> ->|pos Hk Hfind Hn Hsell]; rewrite Hk.
  - rewrite Z.add_0_r. symmetry. apply Z.mod_small.
    pose proof (held_le_queued c (name (position order)) HI) as [H0 _].
    rewrite (inv_quantity c HI) in *.
    split; [exact H0|]. apply Z.mod_pos_bound, UINT32_MOD_pos.
  - unfold held at 1.
    change (name (position order)) with (name (position (completed order n))) at 1.
    rewrite HandleBuy_portfolio_same. simpl. unfold held.
    destruct (find (name (position order)) (portfolio_ c)); simpl.
    + reflexivity.
    + symmetry. apply Z.mod_small. lia.
  - lia.
  - destruct (inv_entry c HI _ _ Hfind) as [_ [Hp0 Hp1]].
    destruct (sell_maps c c' (completed order n) pos HI Hfind)
      as (_ & _ & value' & _ & _ & Hpos' & _); [simpl; lia|exact Hsell|].
    simpl in Hpos'. unfold held. rewrite Hpos', Hfind.
    destruct (quantity pos - n =? 0) eqn:E.
    + apply Z.eqb_eq in E. lia.
    + simpl. apply sub32_small. lia.
Qed.

(** [held_moves_by_the_fill] at [holding_AAPL], for a sell of 4 of the 10
    shares. *)
Lemma held_moves_by_the_fill_witness :
  exists c',
    SubmitOrder holding_AAPL (sell "AAPL" 4 120) = Some (4, c') /\
    held c' "AAPL" = held holding_AAPL "AAPL" - 4.
Proof.
  eexists. split; [vm_compute; reflexivity|].
  apply (held_moves_by_the_fill holding_AAPL _ (sell "AAPL" 4 120) 4).
  - exact Properties.reachable_holding_AAPL.
  - unfold well_formed, is_uint32, UINT32_MOD; simpl; lia.
  - vm_compute; reflexivity.
Defined.

(** ** The FIFO queue *)

(** The FIFO queue of the order's security after a call. A buy that fills
    appends one lot at the back, the order with the filled quantity, and a
    buy that fills nothing leaves the queue alone. A sell pops lots from the
    front only, reduces at most the lot it stops at, and takes exactly the
    returned quantity out of the queue. *)
Theorem queue_after_call (c c' : BrokerClient) (order : Order) (n : Z) :
  reachable c -> well_formed order ->
  SubmitOrder c order = Some (n, c') ->
  (kind order = Buy ->
   subscript [] (name (position order)) (outstandingBuyOrderMap_ c') =
     if n =? 0 then subscript [] (name (position order)) (outstandingBuyOrderMap_ c)
     else subscript [] (name (position order)) (outstandingBuyOrderMap_ c)
            ++ [completed order n]) /\
  (kind order = Sell ->
   fifo_remainder
     (subscript [] (name (position order)) (outstandingBuyOrderMap_ c))
     (subscript [] (name (position order)) (outstandingBuyOrderMap_ c')) /\
   queued c' (name (position order)) = queued c (name (position order)) - n).
Proof.
  intros Hr Hwf Hs. pose proof (reachable_Inv c Hr) as HI.
  pose proof Hwf as [Hq0 Hq1].
  destruct (SubmitOrder_path _ _ _ _ Hs)
    as [Hk _ -> ->|Hk _ Hn ->|Hk Hfind -> ->|pos Hk Hfind Hn Hsell];
    (split; intros Hk'; [try congruence|try congruence]).
  - reflexivity.
  - destruct (n =? 0) eqn:E; [apply Z.eqb_eq in E; lia|].
    unfold subscript at 1.
    change (name (position order)) with (name (position (completed order n))) at 1.
    now rewrite HandleBuy_queue_same.
  - split; [exists 0%nat; now left | lia].
  - destruct (inv_entry c HI _ _ Hfind) as [_ [Hp0 Hp1]].
    destruct (sell_maps c c' (completed order n) pos HI Hfind)
      as (queue' & removed & value' & Hd & Ht & _ & Hq' & _); [simpl; lia|exact Hsell|].
    simpl in Hd, Ht, Hq'.
    assert (Hsub : subscript [] (name (position order)) (outstandingBuyOrderMap_ c') = queue').
    { unfold subscript. now rewrite Hq'. }
    split.
    + rewrite Hsub.
      apply (drain_fifo _ n 0 0%float queue' removed value'); try lia; [|exact Hd].
      now apply subscript_lots.
    + unfold queued at 1. now rewrite Hsub.
Qed.

(** [queue_after_call] at [BrokerClient(10000)] after buys of 10@10 and
    10@40, for a sell of 15. *)
Lemma queue_after_call_witness :
  exists c c',
    SubmitOrders (new_BrokerClient 10000) [buy "AAPL" 10 10; buy "AAPL" 10 40] = Some c /\
    SubmitOrder c (sell "AAPL" 15 60) = Some (15, c') /\
    (kind (sell "AAPL" 15 60) = Buy ->
     subscript [] "AAPL" (outstandingBuyOrderMap_ c') =
       if 15 =? 0 then subscript [] "AAPL" (outstandingBuyOrderMap_ c)
       else subscript [] "AAPL" (outstandingBuyOrderMap_ c)
              ++ [completed (sell "AAPL" 15 60) 15]) /\
    (kind (sell "AAPL" 15 60) = Sell ->
     fifo_remainder (subscript [] "AAPL" (outstandingBuyOrderMap_ c))
                    (subscript [] "AAPL" (outstandingBuyOrderMap_ c')) /\
     queued c' "AAPL" = queued c "AAPL" - 15).
Proof.
  do 2 eexists. split; [vm_compute; reflexivity|].
  split; [vm_compute; reflexivity|].
  apply (queue_after_call _ _ (sell "AAPL" 15 60) 15).
  - apply (reachable_submit
             (HandleBuy (new_BrokerClient 10000) (buy "AAPL" 10 10))
             _ (buy "AAPL" 10 40) 10).
    + apply (reachable_submit (new_BrokerClient 10000) _ (buy "AAPL" 10 10) 10).
      * apply reachable_new.
      * unfold well_formed, is_uint32, UINT32_MOD; simpl; lia.
      * vm_compute; reflexivity.
    + unfold well_formed, is_uint32, UINT32_MOD; simpl; lia.
    + vm_compute; reflexivity.
  - unfold well_formed, is_uint32, UINT32_MOD; simpl; lia.
  - vm_compute; reflexivity.
Defined.

(** Every security of the portfolio has a FIFO queue in
    [outstandingBuyOrderMap_]: the [operator[]] of [HandleSell] line 115
    never inserts a queue. *)
Theorem held_security_has_queue (c : BrokerClient) (nm : string) (pos : SecurityPosition) :
  reachable c ->
  find nm (portfolio_ c) = Some pos ->
  exists queue, find nm (outstandingBuyOrderMap_ c) = Some queue.
Proof.
  intros Hr. revert nm pos.
  induction Hr as [cash|c c' order n Hr IH Hwf Hs]; intros nm pos Hfind.
  - discriminate Hfind.
  - pose proof (reachable_Inv c Hr) as HI. pose proof Hwf as [Hq0 Hq1].
    destruct (SubmitOrder_path _ _ _ _ Hs)
      as [_ _ _ ->|_ _ _ ->|_ _ _ ->|held _ Hheld Hn Hsell]; eauto.
    + destruct (string_dec (name (position order)) nm) as [<-|Hne].
      * change (name (position order)) with (name (position (completed order n))).
        rewrite HandleBuy_queue_same. eauto.
      * rewrite (HandleBuy_portfolio_other c (completed order n)) in Hfind by assumption.
        rewrite (HandleBuy_queue_other c (completed order n)) by assumption. eauto.
    + destruct (inv_entry c HI _ _ Hheld) as [_ [Hp0 _]].
      destruct (sell_maps c c' (completed order n) held HI Hheld)
        as (queue' & _ & _ & _ & _ & _ & Hq' & Hother); [simpl; lia|exact Hsell|].
      simpl in Hq', Hother.
      destruct (string_dec (name (position order)) nm) as [<-|Hne]; [eauto|].
      destruct (Hother nm Hne) as [Hp Hq]. rewrite Hp in Hfind. rewrite Hq. eauto.
Qed.

(** [held_security_has_queue] at [three_tickers] and GOOG. *)
Lemma held_security_has_queue_witness :
  exists queue, find "GOOG" (outstandingBuyOrderMap_ three_tickers) = Some queue.
Proof.
  apply (held_security_has_queue three_tickers "GOOG"
           {| name := "GOOG"; quantity := 3; price := 150 |}).
  - exact Properties.reachable_three_tickers.
  - vm_compute; reflexivity.
Defined.

(** No call removes a queue from [outstandingBuyOrderMap_]: a security that
    has a queue, possibly empty, keeps one for ever, also after its position
    has been sold and erased from the portfolio. *)
Theorem queue_entries_persist
    (c c' : BrokerClient) (order : Order) (n : Z) (nm : string) (queue : list Order) :
  reachable c -> well_formed order ->
  SubmitOrder c order = Some (n, c') ->
  find nm (outstandingBuyOrderMap_ c) = Some queue ->
  exists queue', find nm (outstandingBuyOrderMap_ c') = Some queue'.
Proof.
  intros Hr Hwf Hs Hfind. pose proof (reachable_Inv c Hr) as HI.
  pose proof Hwf as [Hq0 Hq1].
  destruct (SubmitOrder_path _ _ _ _ Hs)
    as [_ _ _ ->|_ _ _ ->|_ _ _ ->|held _ Hheld Hn Hsell]; eauto.
  - destruct (string_dec (name (position order)) nm) as [<-|Hne].
    + change (name (position order)) with (name (position (completed order n))).
      rewrite HandleBuy_queue_same. eauto.
    + rewrite (HandleBuy_queue_other c (completed order n)) by assumption. eauto.
  - destruct (inv_entry c HI _ _ Hheld) as [_ [Hp0 _]].
    destruct (sell_maps c c' (completed order n) held HI Hheld)
      as (queue' & _ & _ & _ & _ & _ & Hq' & Hother); [simpl; lia|exact Hsell|].
    simpl in Hq', Hother.
    destruct (string_dec (name (position order)) nm) as [<-|Hne]; [eauto|].
    destruct (Hother nm Hne) as [_ Hq]. rewrite Hq. eauto.
Qed.

(** [queue_entries_persist] at [holding_AAPL], sold out: AAPL leaves the
    portfolio and keeps its queue. *)
Lemma queue_entries_persist_witness :
  exists c',
    SubmitOrder holding_AAPL (sell "AAPL" 10 100) = Some (10, c') /\
    find "AAPL" (portfolio_ c') = None /\
    exists queue', find "AAPL" (outstandingBuyOrderMap_ c') = Some queue'.
Proof.
  eexists. split; [vm_compute; reflexivity|]. split; [vm_compute; reflexivity|].
  apply (queue_entries_persist holding_AAPL _ (sell "AAPL" 10 100) 10 "AAPL"
           [buy "AAPL" 10 100]).
  - exact Properties.reachable_holding_AAPL.
  - unfold well_formed, is_uint32, UINT32_MOD; simpl; lia.
  - vm_compute; reflexivity.
  - vm_compute; reflexivity.
Defined.

Lemma Forall_skipn_keep {A : Type} (P : A -> Prop) (k : nat) (l : list A) :
  Forall P l -> Forall P (skipn k l).
Proof.
  revert l. induction k as [|k IH]; intros l Hl; [exact Hl|].
  destruct Hl as [|x l Hx Hl]; [constructor|]. simpl. auto.
Qed.

Lemma fifo_remainder_lots (nm : string) (old new : list Order) :
  Forall (buy_lot_of nm) old -> fifo_remainder old new ->
  Forall (buy_lot_of nm) new.
Proof.
  intros Hold [k [->|(lot & rest & q & Hk & -> & Hq)]].
  - now apply Forall_skipn_keep.
  - pose proof (Forall_skipn_keep _ k _ Hold) as Hs. rewrite Hk in Hs.
    apply Forall_cons_iff in Hs as [(Hkind & Hname & Hlot) Hrest].
    constructor; [|exact Hrest].
    unfold buy_lot_of, lot_ok in *. simpl. repeat split; try assumption; lia.
Qed.

(** Each FIFO queue holds buy orders only, all of the security it is filed
    under, each with a non-zero [uint32_t] quantity: a zero fill is never
    queued, and the sell loop pops a lot it consumes whole. *)
Theorem queues_hold_buy_lots (c : BrokerClient) (nm : string) (queue : list Order) :
  reachable c ->
  find nm (outstandingBuyOrderMap_ c) = Some queue ->
  Forall (buy_lot_of nm) queue.
Proof.
  intros Hr. revert nm queue.
  induction Hr as [cash|c c' order n Hr IH Hwf Hs]; intros nm queue Hfind.
  - discriminate Hfind.
  - pose proof (reachable_Inv c Hr) as HI. pose proof Hwf as [Hq0 Hq1].
    assert (Hsub : forall k, Forall (buy_lot_of k) (subscript [] k (outstandingBuyOrderMap_ c))).
    { intros k. unfold subscript.
      destruct (find k (outstandingBuyOrderMap_ c)) eqn:E; [eauto|constructor]. }
    destruct (SubmitOrder_path _ _ _ _ Hs)
      as [_ _ _ ->|Hk _ Hn ->|_ _ _ ->|held Hk Hheld Hn' Hsell]; eauto.
    + destruct (string_dec (name (position order)) nm) as [<-|Hne].
      * change (name (position order)) with (name (position (completed order n))) in Hfind.
        rewrite HandleBuy_queue_same in Hfind. injection Hfind as <-.
        apply Forall_app. split; [apply Hsub|].
        constructor; [|constructor]. unfold buy_lot_of, lot_ok. simpl. auto.
      * rewrite (HandleBuy_queue_other c (completed order n)) in Hfind by assumption. eauto.
    + destruct (inv_entry c HI _ _ Hheld) as [_ [Hp0 Hp1]].
      destruct (sell_maps c c' (completed order n) held HI Hheld)
        as (queue' & removed & value' & Hd & _ & _ & Hq' & Hother); [simpl; lia|exact Hsell|].
      simpl in Hd, Hq', Hother.
      destruct (string_dec (name (position order)) nm) as [<-|Hne].
      * rewrite Hq' in Hfind. injection Hfind as <-.
        apply (fifo_remainder_lots _ _ _ (Hsub _)).
        apply (drain_fifo _ n 0 0%float queue' removed value'); try lia; [|exact Hd].
        now apply subscript_lots.
      * destruct (Hother nm Hne) as [_ Hq]. rewrite Hq in Hfind. eauto.
Qed.

(** [queues_hold_buy_lots] at [three_tickers] and MSFT. *)
Lemma queues_hold_buy_lots_witness :
  Forall (buy_lot_of "MSFT") [buy "MSFT" 1 300].
Proof.
  apply (queues_hold_buy_lots three_tickers "MSFT" [buy "MSFT" 1 300]).
  - exact Properties.reachable_three_tickers.
  - vm_compute; reflexivity.
Defined.

(** ** The transaction log over a sequence of calls *)

Lemma path_log (c c' : BrokerClient) (order : Order) (n : Z) :
  submit_path c order n c' ->
  GetTransactions c' = GetTransactions c \/
  GetTransactions c' = GetTransactions c ++ [completed order n].
Proof.
  intros [_ _ _ ->|_ _ _ ->|_ _ _ ->|pos _ _ _ Hsell].
  - now left.
  - now right.
  - now left.
  - right. destruct (HandleSell_result _ _ _ Hsell) as (q & r & v & _ & ->).
    reflexivity.
Qed.

(** The log is append-only. Over any sequence of calls the log of the first
    client is a prefix of the log of the last, and what is added is, in call
    order, the order of each call with the quantity that call returned in
    place of the requested one: at most one entry per call, none left out
    for a call that returned a quantity other than 0. *)
Theorem log_is_append_only (trace : list (Order * Z)) (c c' : BrokerClient) :
  calls c trace c' ->
  exists added,
    GetTransactions c' = GetTransactions c ++ added /\
    logged trace added /\
    (List.length added <= List.length trace)%nat.
Proof.
  induction 1 as [c|c c1 c' order n rest Hs _ IH].
  - exists []. rewrite app_nil_r. repeat split; [constructor|auto].
  - destruct IH as (added & Hlog & Hadded & Hlen).
    destruct (SubmitOrder_path _ _ _ _ Hs)
      as [_ _ -> ->|_ _ _ ->|_ _ -> ->|pos _ _ _ Hsell].
    + exists added. repeat split; [exact Hlog|now constructor|simpl; lia].
    + exists (completed order n :: added). rewrite Hlog. unfold GetTransactions; simpl.
      rewrite <- app_assoc. repeat split; [now constructor|simpl; lia].
    + exists added. repeat split; [exact Hlog|now constructor|simpl; lia].
    + destruct (HandleSell_result _ _ _ Hsell) as (q & r & v & _ & Hc1).
      exists (completed order n :: added). rewrite Hlog, Hc1.
      unfold GetTransactions; simpl.
      rewrite <- app_assoc. repeat split; [now constructor|simpl; lia].
Qed.

(** [log_is_append_only] at [holding_AAPL], for a sell of 25 of the 10
    shares held followed by a sell of a security never bought. *)
Lemma log_is_append_only_witness :
  exists c' added,
    calls holding_AAPL [(sell "AAPL" 25 100, 10); (sell "MSFT" 1 300, 0)] c' /\
    GetTransactions c' = GetTransactions holding_AAPL ++ added /\
    logged [(sell "AAPL" 25 100, 10); (sell "MSFT" 1 300, 0)] added /\
    (List.length added <= 2)%nat.
Proof.
  assert (H : exists c', calls holding_AAPL
                [(sell "AAPL" 25 100, 10); (sell "MSFT" 1 300, 0)] c').
  { eexists.
    eapply calls_cons; [vm_compute; reflexivity|].
    eapply calls_cons; [vm_compute; reflexivity|]. apply calls_nil. }
  destruct H as [c' H].
  destruct (log_is_append_only _ _ _ H) as (added & H1 & H2 & H3).
  exists c', added. split; [exact H|]. split; [exact H1|]. split; [exact H2|exact H3].
Defined.

(** Every entry of the log of a reachable client has a [uint32_t] quantity,
    and every logged buy has a quantity above 0: the guard of line 24 keeps
    zero fills of the buy path out of the log. *)
Theorem logged_quantities (c : BrokerClient) :
  reachable c ->
  Forall (fun e => is_uint32 (quantity (position e)) /\
                   (kind e = Buy -> 0 < quantity (position e)))
         (GetTransactions c).
Proof.
  induction 1 as [cash|c c' order n Hr IH Hwf Hs].
  - constructor.
  - pose proof (reachable_Inv c Hr) as HI. pose proof Hwf as [Hq0 Hq1].
    destruct (SubmitOrder_path _ _ _ _ Hs)
      as [_ _ _ ->|Hk _ Hn ->|_ _ _ ->|pos Hk Hfind Hn Hsell]; auto.
    + unfold GetTransactions; simpl. apply Forall_app. split; [exact IH|].
      constructor; [|constructor]. simpl. unfold is_uint32. split; [lia|]. intros _. lia.
    + destruct (HandleSell_result _ _ _ Hsell) as (q & r & v & _ & ->).
      unfold GetTransactions; simpl. apply Forall_app. split; [exact IH|].
      constructor; [|constructor]. simpl.
      destruct (inv_entry c HI _ _ Hfind) as [_ [Hp0 Hp1]].
      unfold is_uint32. split; [lia|]. rewrite Hk. discriminate.
Qed.

(** [logged_quantities] at [three_tickers]. *)
Lemma logged_quantities_witness :
  Forall (fun e => is_uint32 (quantity (position e)) /\
                   (kind e = Buy -> 0 < quantity (position e)))
         (GetTransactions three_tickers).
Proof.
  apply (logged_quantities three_tickers).
  exact Properties.reachable_three_tickers.
Defined.

(** ** Cash, and what a sell's price does not touch *)

(** The cash balance after a call: a buy that fills [n > 0] takes
    [price * n] off it, a sell of a security in the portfolio adds
    [price * n] (also when [n = 0]), and the two paths that return early
    leave it alone; each is one [double] multiplication and one addition or
    subtraction. *)
Theorem cash_moves_by_the_fill (c c' : BrokerClient) (order : Order) (n : Z) :
  SubmitOrder c order = Some (n, c') ->
  GetCashBalance c' =
    match kind order, find (name (position order)) (portfolio_ c) with
    | Buy, _ =>
        if n =? 0 then GetCashBalance c
        else (GetCashBalance c - price (position order) * double_of_uint32 n)%float
    | Sell, None => GetCashBalance c
    | Sell, Some _ =>
        (GetCashBalance c + price (position order) * double_of_uint32 n)%float
    end.
Proof.
  intros Hs.
  destruct (SubmitOrder_path _ _ _ _ Hs)
    as [Hk _ -> ->|Hk _ Hn ->|Hk Hfind -> ->|pos Hk Hfind Hn Hsell]; rewrite Hk.
  - reflexivity.
  - destruct (n =? 0) eqn:E; [apply Z.eqb_eq in E; lia|]. reflexivity.
  - now rewrite Hfind.
  - rewrite Hfind. destruct (HandleSell_result _ _ _ Hsell) as (q & r & v & _ & ->).
    reflexivity.
Qed.

(** [cash_moves_by_the_fill] at [testBuySellCheckProfit]: selling at 200
    the 10 shares bought at 100. *)
Lemma cash_moves_by_the_fill_witness :
  exists c',
    SubmitOrder holding_AAPL (sell "AAPL" 10 200) = Some (10, c') /\
    GetCashBalance c' = 11000%float.
Proof.
  eexists. split; [vm_compute; reflexivity|].
  apply (cash_moves_by_the_fill holding_AAPL _ (sell "AAPL" 10 200) 10).
  vm_compute; reflexivity.
Defined.

(** The price of a sell order reaches the cash balance and the log only:
    two sells of the same security and quantity at different prices return
    the same quantity and leave the same portfolio (the recomputed average
    cost included) and the same FIFO queues. *)
Theorem sell_price_leaves_holdings
    (c c1 c2 : BrokerClient) (nm : string) (q n1 n2 : Z) (p1 p2 : float) :
  SubmitOrder c (sell nm q p1) = Some (n1, c1) ->
  SubmitOrder c (sell nm q p2) = Some (n2, c2) ->
  n1 = n2 /\
  portfolio_ c1 = portfolio_ c2 /\
  outstandingBuyOrderMap_ c1 = outstandingBuyOrderMap_ c2.
Proof.
  intros H1 H2.
  destruct (SubmitOrder_path _ _ _ _ H1)
    as [Hk _ _ _|Hk _ _ _|_ Hf1 -> ->|pos1 _ Hf1 Hn1 Hs1]; try discriminate Hk;
  destruct (SubmitOrder_path _ _ _ _ H2)
    as [Hk _ _ _|Hk _ _ _|_ Hf2 -> ->|pos2 _ Hf2 Hn2 Hs2]; try discriminate Hk;
  simpl in *; try congruence.
  - auto.
  - assert (pos2 = pos1) by congruence. subst pos2. subst n1 n2.
    destruct (HandleSell_result _ _ _ Hs1) as (qa & ra & va & Hda & Hc1).
    destruct (HandleSell_result _ _ _ Hs2) as (qb & rb & vb & Hdb & Hc2).
    simpl in Hda, Hdb. rewrite Hda in Hdb. injection Hdb as <- <- <-.
    rewrite Hc1, Hc2. repeat split.
Qed.

(** [sell_price_leaves_holdings] at [holding_AAPL]: 4 shares sold at 60 or
    at 200. *)
Lemma sell_price_leaves_holdings_witness :
  exists c1 c2,
    SubmitOrder holding_AAPL (sell "AAPL" 4 60) = Some (4, c1) /\
    SubmitOrder holding_AAPL (sell "AAPL" 4 200) = Some (4, c2) /\
    4 = 4 /\
    portfolio_ c1 = portfolio_ c2 /\
    outstandingBuyOrderMap_ c1 = outstandingBuyOrderMap_ c2.
Proof.
  do 2 eexists. split; [vm_compute; reflexivity|]. split; [vm_compute; reflexivity|].
  apply (sell_price_leaves_holdings holding_AAPL _ _ "AAPL" 4 4 4 60 200);
    vm_compute; reflexivity.
Defined.

(** ** The helpers and the tests of [BrokerClientTests.cpp] *)

Lemma SFeqb_sym (x y : spec_float) : SFeqb x y = SFeqb y x.
Proof.
  unfold SFeqb, SFcompare.
  destruct x as [sx|sx| |sx mx ex], y as [sy|sy| |sy my ey];
    try destruct sx; try destruct sy; try reflexivity;
    change (Pos.compare_cont Eq) with Pos.compare;
    destruct (Z.compare_spec ex ey), (Z.compare_spec ey ex); try lia; try reflexivity;
    destruct (Pos.compare_spec mx my), (Pos.compare_spec my mx);
    try lia; try reflexivity.
Qed.

Lemma float_eqb_sym (x y : float) : PrimFloat.eqb x y = PrimFloat.eqb y x.
Proof. rewrite !FloatAxioms.eqb_spec. apply SFeqb_sym. Qed.

(** [ordersEqual] is symmetric; two orders it accepts have the same kind,
    name and quantity and prices equal as [double]s; and it accepts an
    order against itself exactly when the price is not NaN. *)
Theorem ordersEqual_properties (a b : Order) :
  ordersEqual a b = ordersEqual b a /\
  (ordersEqual a b = true <->
   kind a = kind b /\
   name (position a) = name (position b) /\
   quantity (position a) = quantity (position b) /\
   PrimFloat.eqb (price (position a)) (price (position b)) = true) /\
  ordersEqual a a = negb (PrimFloat.is_nan (price (position a))).
Proof.
  unfold ordersEqual, positionsEqual. split; [|split].
  - rewrite (float_eqb_sym (price (position a))), (String.eqb_sym (name (position a))),
      (Z.eqb_sym (quantity (position a))).
    destruct (kind a), (kind b); reflexivity.
  - rewrite !andb_true_iff, String.eqb_eq, Z.eqb_eq.
    destruct (kind a), (kind b); simpl; split; intros H;
      try (destruct H as [H _]; discriminate H); tauto.
  - rewrite String.eqb_refl, Z.eqb_refl. unfold PrimFloat.is_nan.
    rewrite negb_involutive. destruct (kind a); simpl; now rewrite andb_true_r.
Qed.

(** [main] of the test file runs to its end on the embedding: no [assert]
    of the seven tests fails and no test indexes a vector past its end. *)
Lemma all_tests_pass : main = Some tt.
Proof. vm_compute; reflexivity. Qed.

End Behaviour.
